(** * A shallow embedding of the ETL pipeline of [main.py]

    The pipeline loads two tables, cleans them with [clean_data] (which
    relies on the scalar predicate [is_valid_value]), joins them with an
    inner merge on [product_id] and asks the database for three reports.
    This file embeds the pure part of that program and the start-up retry
    loop, and proves the properties recorded for it.

    Python exceptions are modelled by the [result] type: a computation
    either returns a value ([Ok]) or raises ([Raise]).

    Three things are decided outside the values that the program
    handles, and the functions below take them as arguments: how pandas
    reads a series of timestamps, which joins it refuses for the types
    of their key columns, and how the database orders groups with equal
    totals. What is proved holds for every such choice. *)

From ITree Require Import ITree ITreeFacts Events.State Events.StateFacts.
From Stdlib Require Import ZArith List Bool Ascii String Lia Floats.SpecFloat.
From Stdlib Require Import Sorting.Permutation Sorting.Sorted.
From Stdlib Require Import Classical_Prop Wf_nat.
Import ListNotations.

Local Open Scope string_scope.
Local Open Scope list_scope.
Local Open Scope Z_scope.

(** ** Exceptions and the error monad *)

Inductive exn : Type :=
| ValueError
| TypeError
| OverflowError
| KeyError
| MergeError
| ParseError
| OperationalError
| OtherError.

Inductive result (A : Type) : Type :=
| Ok (a : A)
| Raise (e : exn).

Arguments Ok {A} a.
Arguments Raise {A} e.

Definition rbind {A B : Type} (m : result A) (k : A -> result B) : result B :=
  match m with
  | Ok a => k a
  | Raise e => Raise e
  end.

Declare Scope result_scope.
Delimit Scope result_scope with res.
Notation "x <- m ;; k" := (rbind m (fun x => k))
  (at level 61, m at next level, right associativity) : result_scope.
Local Open Scope result_scope.

(** [mapM f l] applies [f] to the elements of [l] from left to right and
    stops at the first exception, as a Python loop or [Series.apply] does. *)
Fixpoint mapM {A B : Type} (f : A -> result B) (l : list A) : result (list B) :=
  match l with
  | [] => Ok []
  | a :: l' => b <- f a ;; bs <- mapM f l' ;; Ok (b :: bs)
  end.

(** ** Scalar values

    The cells of a data frame and the arguments of [is_valid_value]:
    [None], booleans, integers of any size, binary64 floats (with both
    zeros, both infinities and NaN), strings, and date-times (a pandas
    [Timestamp], counted in nanoseconds since the epoch, or [NaT]). *)

Inductive datetime : Type :=
| Timestamp (ns : Z)
| NaT.

Inductive value : Type :=
| VNone
| VBool (b : bool)
| VInt (z : Z)
| VFloat (f : spec_float)
| VStr (s : string)
| VDatetime (d : datetime).

(** ** Python's [float]

    Strings are ASCII text. ([float] also reads the decimal digits and
    the white space of other scripts; such strings are outside this
    model, in which a string with any other character is not a
    number.) *)

Module PyFloat.

Definition prec : Z := 53.
Definition emax : Z := 1024.

Definition zero : spec_float := S754_zero false.
Definition inf : spec_float := S754_infinity false.
Definition nan : spec_float := S754_nan.

Definition is_nan (f : spec_float) : bool :=
  match f with
  | S754_nan => true
  | _ => false
  end.

(** [val > 0]: the comparison of a float with the integer zero. *)
Definition gt0 (f : spec_float) : bool := SFltb zero f.

(** The binary64 number nearest to the integer [z] (ties to even). *)
Definition of_Z (z : Z) : spec_float := binary_normalize prec emax z 0 false.

(** The binary64 number nearest to [m * 10^e] for [m >= 0], with sign
    [neg]: the correctly rounded result of the decimal-to-binary
    conversion, overflowing to an infinity and underflowing to a zero. *)
Definition of_decimal (neg : bool) (m e : Z) : spec_float :=
  match m with
  | Zpos p =>
      if 0 <=? e then binary_round prec emax neg (Z.to_pos (Zpos p * 10 ^ e)) 0
      else
        let '(mz, ez, lz) :=
          SFdiv_core_binary prec emax (Zpos p) 0 (Z.pow 10 (- e)) 0 in
        binary_round_aux prec emax neg mz ez lz
  | _ => S754_zero neg
  end.

(** *** The grammar of [float(str)] *)

(** The white space that [float] strips from both ends of an ASCII
    string: the space and the five control characters from tab to
    carriage return. *)
Definition is_space (c : ascii) : bool :=
  let n := nat_of_ascii c in
  ((9 <=? n) && (n <=? 13) || (n =? 32))%nat.

Definition is_digit (c : ascii) : bool :=
  let n := nat_of_ascii c in ((48 <=? n) && (n <=? 57))%nat.

Definition digit_val (c : ascii) : Z := Z.of_nat (nat_of_ascii c) - 48.

Definition to_lower (c : ascii) : ascii :=
  let n := nat_of_ascii c in
  if ((65 <=? n) && (n <=? 90))%nat then ascii_of_nat (n + 32) else c.

Fixpoint lstrip (l : list ascii) : list ascii :=
  match l with
  | c :: l' => if is_space c then lstrip l' else l
  | [] => []
  end.

Definition strip (l : list ascii) : list ascii :=
  rev (lstrip (rev (lstrip l))).

(** Underscores may only stand between two digits; they are removed
    before the number is read. [prev] is the previous character. *)
Fixpoint remove_underscores (prev : option ascii) (l : list ascii)
  : option (list ascii) :=
  let after_digit :=
    match prev with Some p => is_digit p | None => false end in
  let after_underscore :=
    match prev with Some p => Ascii.eqb p "_" | None => false end in
  match l with
  | [] => if after_underscore then None else Some []
  | c :: l' =>
      if Ascii.eqb c "_" then
        if after_digit then remove_underscores (Some c) l' else None
      else if after_underscore && negb (is_digit c) then None
      else option_map (cons c) (remove_underscores (Some c) l')
  end.

Definition parse_sign (l : list ascii) : bool * list ascii :=
  match l with
  | c :: l' =>
      if Ascii.eqb c "-" then (true, l')
      else if Ascii.eqb c "+" then (false, l')
      else (false, l)
  | [] => (false, [])
  end.

(** Reads a run of digits: the number read so far, how many digits were
    read, and what is left. *)
Fixpoint digits (acc n : Z) (l : list ascii) : Z * Z * list ascii :=
  match l with
  | c :: l' =>
      if is_digit c then digits (10 * acc + digit_val c) (n + 1) l'
      else (acc, n, l)
  | [] => (acc, n, [])
  end.

(** [number [exponent]] with
    [number ::= [digits] "." digits | digits ["."]]; the result is a
    mantissa and a decimal exponent. *)
Definition parse_decimal (l : list ascii) : option (Z * Z) :=
  let '(ip, ni, r1) := digits 0 0 l in
  let '(m, nf, r2) :=
    match r1 with
    | c :: r => if Ascii.eqb c "." then digits ip 0 r else (ip, 0, r1)
    | [] => (ip, 0, r1)
    end in
  if ni + nf =? 0 then None
  else
    match r2 with
    | [] => Some (m, - nf)
    | c :: r3 =>
        if Ascii.eqb (to_lower c) "e" then
          let '(neg, r4) := parse_sign r3 in
          let '(x, nx, r5) := digits 0 0 r4 in
          if nx =? 0 then None
          else
            match r5 with
            | [] => Some (m, (if neg then - x else x) - nf)
            | _ => None
            end
        else None
    end.

Definition lower (l : list ascii) : string :=
  string_of_list_ascii (map to_lower l).

(** [float(s)] for a string: [None] stands for [ValueError]. *)
Definition of_string (s : string) : option spec_float :=
  match remove_underscores None (strip (list_ascii_of_string s)) with
  | None => None
  | Some l =>
      let '(neg, r) := parse_sign l in
      if String.eqb (lower r) "inf" || String.eqb (lower r) "infinity"
      then Some (S754_infinity neg)
      else if String.eqb (lower r) "nan" then Some S754_nan
      else
        match parse_decimal r with
        | Some (m, e) => Some (of_decimal neg m e)
        | None => None
        end
  end.

End PyFloat.

(** [float(value)]: a float is returned as it is, a boolean or an integer
    is converted (an integer too large for a binary64 raises
    [OverflowError]), a string is parsed ([ValueError] when it is not a
    number), and [None] or a date-time raises [TypeError]. *)
Definition py_float (v : value) : result spec_float :=
  match v with
  | VNone => Raise TypeError
  | VBool b => Ok (PyFloat.of_Z (if b then 1 else 0))
  | VInt z =>
      match PyFloat.of_Z z with
      | S754_infinity _ => Raise OverflowError
      | f => Ok f
      end
  | VFloat f => Ok f
  | VStr s =>
      match PyFloat.of_string s with
      | Some f => Ok f
      | None => Raise ValueError
      end
  | VDatetime _ => Raise TypeError
  end.

(** ** [is_valid_value]

<<
    try:
        val = float(value)
        return val > 0
    except ValueError:
        return False
>>
    Only [ValueError] is caught; any other exception of [float] leaves the
    function. *)
Definition is_valid_value (value : value) : result bool :=
  match py_float value with
  | Ok val => Ok (PyFloat.gt0 val)
  | Raise ValueError => Ok false
  | Raise e => Raise e
  end.

(** ** Data frames

    A data frame is a list of column labels and a list of rows, each row
    holding one cell per column. The frames of the pipeline come from a
    CSV or a JSON file, whose column labels are distinct; a label is
    looked up at its first position. The row index of pandas is not
    modelled: no operation of the program reads it. Nor are the types of
    the columns: a column is the list of its cells. *)

Definition row : Type := list value.

Record DataFrame : Type := {
  columns : list string;
  rows : list row
}.

(** Every row has one cell per column. *)
Definition well_formed (df : DataFrame) : Prop :=
  Forall (fun r : row => List.length r = List.length (columns df)) (rows df).

Fixpoint index_of (name : string) (cols : list string) : option nat :=
  match cols with
  | [] => None
  | c :: cols' =>
      if String.eqb name c then Some O
      else option_map S (index_of name cols')
  end.

Definition cell (i : nat) (r : row) : value := nth i r VNone.

(** [df[name]] once the position [i] of the label is known. *)
Definition column (i : nat) (df : DataFrame) : list value :=
  map (cell i) (rows df).

Fixpoint set_nth {A : Type} (i : nat) (a : A) (l : list A) : list A :=
  match l, i with
  | [], _ => []
  | _ :: l', O => a :: l'
  | x :: l', S i' => x :: set_nth i' a l'
  end.

Fixpoint assign_rows (i : nat) (rs : list row) (vs : list value) : list row :=
  match rs, vs with
  | r :: rs', v :: vs' => set_nth i v r :: assign_rows i rs' vs'
  | _, _ => rs
  end.

(** [df[name] = series]: the cells of column [i] are replaced, row by
    row, by the values of the series. *)
Definition assign (i : nat) (vs : list value) (df : DataFrame) : DataFrame :=
  {| columns := columns df; rows := assign_rows i (rows df) vs |}.

Fixpoint select_rows (rs : list row) (mask : list bool) : list row :=
  match rs, mask with
  | r :: rs', b :: mask' =>
      if b then r :: select_rows rs' mask' else select_rows rs' mask'
  | _, _ => []
  end.

(** [df[key]] for a series [key]. A series of booleans selects the rows
    whose entry is [True]. A series without elements is not a series of
    booleans (what [apply] gives back on an empty series keeps the type
    of that series, here a column of prices), and pandas reads it as a
    list of labels: it selects no column at all. *)
Definition select (key : list bool) (df : DataFrame) : DataFrame :=
  match key with
  | [] => {| columns := []; rows := map (fun _ => []) (rows df) |}
  | _ => {| columns := columns df; rows := select_rows (rows df) key |}
  end.

(** *** Equality of cells and rows

    [drop_duplicates] and [merge] compare cells through hash tables, in
    which two numbers are the same cell when they have the same value:
    [1], [1.0] and [True] are one cell, and so are the two float zeros; a
    NaN is the same cell as a NaN. A string is only the same as the same
    string, and a date-time as the same instant. [key_of_cell] gives
    every cell the value it is compared by. *)

Inductive cell_key : Type :=
| KNone
| KNaN
| KNaT
| KNum (z : Z)
| KFrac (neg : bool) (m : positive) (e : Z)
| KInf (neg : bool)
| KStr (s : string)
| KTime (ns : Z).

(** [m = q * 2^k] with [q] odd. *)
Fixpoint odd_part (m : positive) : positive * Z :=
  match m with
  | xO p => let '(q, k) := odd_part p in (q, k + 1)
  | _ => (m, 0)
  end.

(** The number a float stands for: an integer, or an odd multiple of a
    negative power of two. *)
Definition float_key (f : spec_float) : cell_key :=
  match f with
  | S754_zero _ => KNum 0
  | S754_infinity s => KInf s
  | S754_nan => KNaN
  | S754_finite s m e =>
      let '(q, k) := odd_part m in
      if 0 <=? e + k
      then KNum (if s then - (Zpos q * 2 ^ (e + k)) else Zpos q * 2 ^ (e + k))
      else KFrac s q (e + k)
  end.

Definition key_of_cell (v : value) : cell_key :=
  match v with
  | VNone => KNone
  | VBool b => KNum (if b then 1 else 0)
  | VInt z => KNum z
  | VFloat f => float_key f
  | VStr s => KStr s
  | VDatetime (Timestamp ns) => KTime ns
  | VDatetime NaT => KNaT
  end.

Definition cell_key_eqb (a b : cell_key) : bool :=
  match a, b with
  | KNone, KNone => true
  | KNaN, KNaN => true
  | KNaT, KNaT => true
  | KNum x, KNum y => x =? y
  | KFrac s m e, KFrac t n f => Bool.eqb s t && Pos.eqb m n && (e =? f)
  | KInf s, KInf t => Bool.eqb s t
  | KStr x, KStr y => String.eqb x y
  | KTime x, KTime y => x =? y
  | _, _ => false
  end.

(** Where the cells of a column are first numbered with [factorize] (the
    rows of a frame of several columns, the keys of a join), every
    missing value, [None], NaN or [NaT], gets the same number: with
    [alike] they are one cell. *)
Definition compared_by (alike : bool) (v : value) : cell_key :=
  match key_of_cell v with
  | KNaN | KNaT => if alike then KNone else key_of_cell v
  | k => k
  end.

Definition same_value (alike : bool) (a b : value) : bool :=
  cell_key_eqb (compared_by alike a) (compared_by alike b).

Fixpoint same_row (alike : bool) (a b : row) : bool :=
  match a, b with
  | [], [] => true
  | x :: a', y :: b' => same_value alike x y && same_row alike a' b'
  | _, _ => false
  end.

(** *** [drop_duplicates]

    The rows are visited from the first to the last; a row is dropped
    when it is the same as one of the rows [seen] before it. *)
Fixpoint drop_dups (alike : bool) (seen : list row) (rs : list row)
  : list row :=
  match rs with
  | [] => []
  | r :: rs' =>
      if existsb (fun r' => same_row alike r' r) seen
      then drop_dups alike (r :: seen) rs'
      else r :: drop_dups alike (r :: seen) rs'
  end.

(** [df.empty]: the frame has no column or no row. *)
Definition frame_empty (df : DataFrame) : bool :=
  match columns df, rows df with
  | [], _ => true
  | _, [] => true
  | _, _ => false
  end.

(** A frame of one column is compared as the series of that column, cell
    against cell; a frame of several columns has each column numbered
    first, which makes the missing values alike. *)
Definition missing_alike (cols : list string) : bool :=
  match cols with
  | [_] => false
  | _ => true
  end.

(** [df.drop_duplicates()]: an empty frame is returned as it is. *)
Definition drop_duplicates (df : DataFrame) : DataFrame :=
  if frame_empty df then df
  else {| columns := columns df;
          rows := drop_dups (missing_alike (columns df)) [] (rows df) |}.

(** ** [clean_data] *)

Section Clean.

(** The conversion pandas applies to one raw timestamp (a string or a
    number) of a series: the instant it denotes, [NaT], or [None] when
    the value cannot be read as a date-time. How a value is read depends
    on the series it stands in (pandas settles on one format for the
    whole series), so the reader is given the series too. *)
Variable parse_datetime : list value -> value -> option datetime.

(** One element of [pd.to_datetime(series)]: a date-time stays as it
    is, a missing value becomes [NaT], anything else is parsed. *)
Definition to_datetime_scalar (series : list value) (v : value)
  : result value :=
  match v with
  | VDatetime d => Ok (VDatetime d)
  | VNone => Ok (VDatetime NaT)
  | VFloat S754_nan => Ok (VDatetime NaT)
  | _ =>
      match parse_datetime series v with
      | Some d => Ok (VDatetime d)
      | None => Raise ParseError
      end
  end.

(** [pd.to_datetime(series)] converts the whole series or raises. *)
Definition to_datetime (series : list value) : result (list value) :=
  mapM (to_datetime_scalar series) series.

(** [series.apply(f)] *)
Definition series_apply {B : Type} (f : value -> result B) (vs : list value)
  : result (list B) :=
  mapM f vs.

(**
<<
  df = df.drop_duplicates()
  col_names = df.columns
  if "timestamp" in col_names:
      df["timestamp"] = pd.to_datetime(df["timestamp"])
  if "price" in col_names:
      df = df[df["price"].apply(is_valid_value)]
  return df
>>
*)
Definition clean_data (df : DataFrame) : result DataFrame :=
  let df := drop_duplicates df in
  let col_names := columns df in
  df <- match index_of "timestamp" col_names with
        | Some i => ts <- to_datetime (column i df) ;; Ok (assign i ts df)
        | None => Ok df
        end ;;
  df <- match index_of "price" col_names with
        | Some i =>
            mask <- series_apply is_valid_value (column i df) ;;
            Ok (select mask df)
        | None => Ok df
        end ;;
  Ok df.

End Clean.

(** *** A date-time reader

    A fragment of what pandas reads. A string of the form [YYYY-MM-DD],
    [YYYY-MM-DD HH:MM:SS] or [YYYY-MM-DD HH:MM:SS.f...] (one to nine
    digits of fraction) is read in a series whose strings all have the
    same one of these three forms and which holds no integer; an integer
    is read, as nanoseconds since the epoch, in a series that holds no
    string. The instant must be one a [Timestamp] can hold (64 bits of
    nanoseconds). *)

Module Iso8601.

Definition is_leap (y : Z) : bool :=
  ((y mod 4 =? 0) && negb (y mod 100 =? 0)) || (y mod 400 =? 0).

Definition days_in_month (y m : Z) : Z :=
  if m =? 2 then (if is_leap y then 29 else 28)
  else if (m =? 4) || (m =? 6) || (m =? 9) || (m =? 11) then 30
  else 31.

(** Days from 1970-01-01 to the given date of the Gregorian calendar. *)
Definition days_from_civil (y m d : Z) : Z :=
  let y' := if m <=? 2 then y - 1 else y in
  let era := y' / 400 in
  let yoe := y' - era * 400 in
  let doy := (153 * (if 2 <? m then m - 3 else m + 9) + 2) / 5 + d - 1 in
  let doe := yoe * 365 + yoe / 4 - yoe / 100 + doy in
  era * 146097 + doe - 719468.

(** Reads exactly [n] digits. *)
Fixpoint fixed_digits (n : nat) (acc : Z) (l : list ascii)
  : option (Z * list ascii) :=
  match n with
  | O => Some (acc, l)
  | S n' =>
      match l with
      | c :: l' =>
          if PyFloat.is_digit c
          then fixed_digits n' (10 * acc + PyFloat.digit_val c) l'
          else None
      | [] => None
      end
  end.

Definition expect (c : ascii) (l : list ascii) : option (list ascii) :=
  match l with
  | c' :: l' => if Ascii.eqb c c' then Some l' else None
  | [] => None
  end.

Definition obind {A B : Type} (m : option A) (k : A -> option B) : option B :=
  match m with
  | Some a => k a
  | None => None
  end.

Definition parse_date (l : list ascii) : option (Z * list ascii) :=
  obind (fixed_digits 4 0 l) (fun '(y, l) =>
  obind (expect "-" l) (fun l =>
  obind (fixed_digits 2 0 l) (fun '(m, l) =>
  obind (expect "-" l) (fun l =>
  obind (fixed_digits 2 0 l) (fun '(d, l) =>
  if (1 <=? m) && (m <=? 12) && (1 <=? d) && (d <=? days_in_month y m)
  then Some (days_from_civil y m d, l)
  else None))))).

(** The fraction of a second, in nanoseconds. *)
Definition parse_fraction (l : list ascii) : option Z :=
  let '(f, n, rest) := PyFloat.digits 0 0 l in
  match rest with
  | [] => if (1 <=? n) && (n <=? 9) then Some (f * 10 ^ (9 - n)) else None
  | _ => None
  end.

Definition parse_time (l : list ascii) : option Z :=
  obind (fixed_digits 2 0 l) (fun '(h, l) =>
  obind (expect ":" l) (fun l =>
  obind (fixed_digits 2 0 l) (fun '(mi, l) =>
  obind (expect ":" l) (fun l =>
  obind (fixed_digits 2 0 l) (fun '(s, l) =>
  if (h <? 24) && (mi <? 60) && (s <? 60) then
    let secs := (h * 60 + mi) * 60 + s in
    match l with
    | [] => Some (secs * 1000000000)
    | c :: l' =>
        if Ascii.eqb c "."
        then option_map (Z.add (secs * 1000000000)) (parse_fraction l')
        else None
    end
  else None))))).

Definition parse (s : string) : option Z :=
  obind (parse_date (list_ascii_of_string s)) (fun '(days, l) =>
  match l with
  | [] => Some (days * 86400000000000)
  | c :: l' =>
      if Ascii.eqb c " "
      then option_map (Z.add (days * 86400000000000)) (parse_time l')
      else None
  end).

Definition in_range (ns : Z) : bool :=
  (- 9223372036854775807 <=? ns) && (ns <=? 9223372036854775807).

(** The three forms differ by their length. *)
Definition form (s : string) : nat :=
  match String.length s with
  | 10%nat => 0%nat
  | 19%nat => 1%nat
  | _ => 2%nat
  end.

Definition reads_like (s : string) (v : value) : bool :=
  match v with
  | VStr t =>
      match parse t with
      | Some _ => Nat.eqb (form t) (form s)
      | None => false
      end
  | VInt _ => false
  | _ => true
  end.

Definition not_a_string (v : value) : bool :=
  match v with
  | VStr _ => false
  | _ => true
  end.

Definition instant (ns : Z) : option datetime :=
  if in_range ns then Some (Timestamp ns) else None.

Definition parse_datetime (series : list value) (v : value)
  : option datetime :=
  match v with
  | VStr s =>
      if forallb (reads_like s) series then obind (parse s) instant else None
  | VInt z =>
      if forallb not_a_string series then instant z else None
  | _ => None
  end.

End Iso8601.

(** ** The inner join

    [left.merge(right, on=key, how="inner")]: every pair of a left row
    and a right row with the same key gives one row of the result, made
    of the cells of the left row followed by the cells of the right row
    without its key. Keys are compared as in [drop_duplicates], missing
    values alike. A label that both frames carry outside the key gets the
    suffix [_x] on the left and [_y] on the right. The order in which
    pandas lists the pairs is not part of what is proved below. *)

Definition remove_nth {A : Type} (i : nat) (l : list A) : list A :=
  firstn i l ++ skipn (S i) l.

Definition has_label (c : string) (cols : list string) : bool :=
  existsb (String.eqb c) cols.

Definition suffix_x (others : list string) (c : string) : string :=
  if has_label c others then (c ++ "_x")%string else c.

Definition suffix_y (others : list string) (c : string) : string :=
  if has_label c others then (c ++ "_y")%string else c.

(** The label [on] stands for more than one column. *)
Definition ambiguous (on : string) (cols : list string) : bool :=
  (1 <? List.length (filter (String.eqb on) cols))%nat.

(** A suffix made two labels of one side equal: some label of [renamed]
    repeats an earlier one, while the label it had in [cols] did not. *)
Fixpoint suffix_clash (seen seen_renamed cols renamed : list string) : bool :=
  match cols, renamed with
  | c :: cols', c' :: renamed' =>
      (has_label c' seen_renamed && negb (has_label c seen))
      || suffix_clash (c :: seen) (c' :: seen_renamed) cols' renamed'
  | _, _ => false
  end.

(** The rows a left row [l] contributes: one per right row whose key
    cell (at [j]) is the same as the key cell of [l] (at [i]). *)
Definition joined_with (i j : nat) (right_rows : list row) (l : row)
  : list row :=
  map (fun r => l ++ remove_nth j r)
      (filter (fun r => same_value true (cell i l) (cell j r)) right_rows).

Section Merge.

(** pandas refuses to join two key columns whose types do not go
    together (strings against numbers, say) and raises [ValueError]. The
    types of the columns are not part of a frame here, so the verdict of
    that check on the two key columns is given from outside. *)
Variable refuses_keys : list value -> list value -> bool.

(** The key is looked up in the right frame, then in the left one
    ([KeyError] when it is missing, [ValueError] when the label is not
    unique); the key columns are checked; the rows are paired; the labels
    are given their suffixes, and [MergeError] is raised if that made two
    labels of one frame equal. *)
Definition merge (left right : DataFrame) (on : string) : result DataFrame :=
  match index_of on (columns right) with
  | None => Raise KeyError
  | Some j =>
      if ambiguous on (columns right) then Raise ValueError
      else
        match index_of on (columns left) with
        | None => Raise KeyError
        | Some i =>
            if ambiguous on (columns left) then Raise ValueError
            else if refuses_keys (column i left) (column j right)
            then Raise ValueError
            else
              let others := remove_nth j (columns right) in
              let llabels := map (suffix_x others) (columns left) in
              let rlabels := map (suffix_y (columns left)) others in
              if suffix_clash [] [] (columns left) llabels
                 || suffix_clash [] [] others rlabels
              then Raise MergeError
              else
                Ok {| columns := llabels ++ rlabels;
                      rows := flat_map (joined_with i j (rows right))
                                       (rows left) |}
        end
  end.

(**
<<
    merge_data = clean_customer_txn_df.merge(
        clean_product_cat_df, on="product_id", how="inner")
>>
*)
Definition merge_data (clean_customer_txn_df clean_product_cat_df : DataFrame)
  : result DataFrame :=
  merge clean_customer_txn_df clean_product_cat_df "product_id".

End Merge.

(** ** The best-sellers query

<<
    SELECT product_id, product_name, SUM(quantity) AS total_sold
    FROM curate.unified_transactions
    GROUP BY product_id, product_name
    ORDER BY total_sold DESC
    LIMIT 2;
>>
    The query reads three columns of the unified table, here an integer
    identifier, a name and an integer quantity, none of them NULL. SQL
    leaves the order of groups with equal totals to the database:
    [places_first g h] is its choice between two such groups, and the
    query is a function of it. *)

Module Sql.

Record unified_transaction : Type := {
  product_id : Z;
  product_name : string;
  quantity : Z
}.

Definition group_key : Type := (Z * string)%type.

Definition key_of (r : unified_transaction) : group_key :=
  (product_id r, product_name r).

Definition key_eqb (a b : group_key) : bool :=
  (fst a =? fst b) && String.eqb (snd a) (snd b).

(** [GROUP BY product_id, product_name] with [SUM(quantity)]: the row
    is added to the group of its key, or opens a new group. *)
Fixpoint add_sale (k : group_key) (q : Z) (groups : list (group_key * Z))
  : list (group_key * Z) :=
  match groups with
  | [] => [(k, q)]
  | (k', s) :: groups' =>
      if key_eqb k k' then (k', s + q) :: groups'
      else (k', s) :: add_sale k q groups'
  end.

Definition group_by_sum (rows : list unified_transaction)
  : list (group_key * Z) :=
  fold_left (fun groups r => add_sale (key_of r) (quantity r) groups) rows [].

Section Order.

Variable places_first : group_key -> group_key -> bool.

(** [ORDER BY total_sold DESC] *)
Fixpoint insert_desc (g : group_key * Z) (l : list (group_key * Z))
  : list (group_key * Z) :=
  match l with
  | [] => [g]
  | h :: l' =>
      if snd h <? snd g then g :: l
      else if (snd h =? snd g) && places_first (fst g) (fst h) then g :: l
      else h :: insert_desc g l'
  end.

Definition order_by_total_desc (l : list (group_key * Z))
  : list (group_key * Z) :=
  fold_right insert_desc [] l.

(** [LIMIT 2] *)
Definition top_2_selling (rows : list unified_transaction)
  : list (group_key * Z) :=
  firstn 2 (order_by_total_desc (group_by_sum rows)).

End Order.

(** The sum of the quantities of the rows with key [k]. *)
Definition total_sold (k : group_key) (rows : list unified_transaction) : Z :=
  fold_right Z.add 0
    (map quantity (filter (fun r => key_eqb (key_of r) k) rows)).

End Sql.

(** ** The connection gate

<<
    while True:
        try:
            engine = create_engine(DB_CONNECTION)
            conn = engine.connect()
            conn.close()
            break
        except OperationalError as e:
            time.sleep(5)
>>
    The loop talks to the outside world in two ways: it tries to connect,
    and it sleeps. Both are events of an interaction tree; the loop itself
    has no bound. *)

Module Gate.

Variant gateE : Type -> Type :=
| Connect : gateE (result unit)
| Sleep (seconds : Z) : gateE unit.

(** One turn of the loop: [inr] leaves the loop ([break], or an
    exception that is not caught), [inl] goes round again. *)
Definition attempt (_ : unit) : itree gateE (unit + result unit) :=
  ITree.bind (ITree.trigger Connect) (fun r =>
    match r with
    | Ok _ => Ret (inr (Ok tt))
    | Raise OperationalError =>
        ITree.bind (ITree.trigger (Sleep 5)) (fun _ => Ret (inl tt))
    | Raise e => Ret (inr (Raise e))
    end).

Definition await_connection : itree gateE (result unit) :=
  ITree.iter attempt tt.

(** The world: [server k] is what the attempt number [k] (from 0) meets.
    The state counts the attempts made and records every sleep. *)
Record world : Type := {
  attempts : nat;
  sleeps : list Z
}.

Definition start : world := {| attempts := O; sleeps := [] |}.

Definition handle (server : nat -> result unit)
  : gateE ~> Monads.stateT world (itree void1) :=
  fun _ e w =>
    match e with
    | Connect =>
        Ret ({| attempts := S (attempts w); sleeps := sleeps w |},
             server (attempts w))
    | Sleep d =>
        Ret ({| attempts := attempts w; sleeps := sleeps w ++ [d] |}, tt)
    end.

Definition run (server : nat -> result unit) (w : world)
  : itree void1 (world * result unit) :=
  interp_state (handle server) await_connection w.

End Gate.

(** ** Notions used to state the properties *)

(** [subseq k l]: [k] is [l] with some elements left out, the others
    keeping their order. *)
Inductive subseq {A : Type} : list A -> list A -> Prop :=
| subseq_nil : subseq [] []
| subseq_skip (a : A) (k l : list A) : subseq k l -> subseq k (a :: l)
| subseq_keep (a : A) (k l : list A) : subseq k l -> subseq (a :: k) (a :: l).

(** The verdict of the price filter on one cell, when it has one. *)
Definition valid_price (v : value) : bool :=
  match is_valid_value v with
  | Ok b => b
  | Raise _ => false
  end.

(** The two conditional steps of [clean_data], each on its own. *)
Definition timestamp_step
  (parse_datetime : list value -> value -> option datetime)
  (col_names : list string) (df : DataFrame) : result DataFrame :=
  match index_of "timestamp" col_names with
  | Some i =>
      ts <- to_datetime parse_datetime (column i df) ;; Ok (assign i ts df)
  | None => Ok df
  end.

Definition price_step (col_names : list string) (df : DataFrame)
  : result DataFrame :=
  match index_of "price" col_names with
  | Some i =>
      mask <- series_apply is_valid_value (column i df) ;; Ok (select mask df)
  | None => Ok df
  end.

(** The series of timestamps of a frame, and the one that [clean_data]
    converts: the timestamps of the frame without its duplicates. *)
Definition timestamps (col_names : list string) (df : DataFrame)
  : list value :=
  match index_of "timestamp" col_names with
  | Some i => column i df
  | None => []
  end.

Definition timestamp_series (df : DataFrame) : list value :=
  timestamps (columns df) (drop_duplicates df).

(** What a row [k] becomes when the timestamps of [series] are
    normalized: [o] is [k] with its timestamp cell converted, or [k]
    itself when the frame has no such column. *)
Definition normalized_as
  (parse_datetime : list value -> value -> option datetime)
  (series : list value) (col_names : list string) (k o : row) : Prop :=
  match index_of "timestamp" col_names with
  | Some i =>
      exists t,
        to_datetime_scalar parse_datetime series (cell i k) = Ok t
        /\ o = set_nth i t k
  | None => o = k
  end.

(** Two rows that [drop_duplicates] takes for the same row of a frame
    with the labels [col_names]. *)
Definition duplicates (col_names : list string) (a b : row) : Prop :=
  same_row (missing_alike col_names) a b = true.

(** What a row is compared by. *)
Definition row_key (alike : bool) (r : row) : list cell_key :=
  map (compared_by alike) r.

(** No two of the rows are duplicates of one another. *)
Definition no_duplicates (col_names : list string) (rs : list row) : Prop :=
  NoDup (map (row_key (missing_alike col_names)) rs).

(** A row that the price filter keeps. *)
Definition passes (col_names : list string) (r : row) : Prop :=
  match index_of "price" col_names with
  | Some j => is_valid_value (cell j r) = Ok true
  | None => True
  end.

(** The tables of the examples. *)

Definition price_example : DataFrame :=
  {| columns := ["price"];
     rows := [[VInt 10]; [VInt (-5)]; [VStr "x"]] |}.

Definition price_with_none : DataFrame :=
  {| columns := ["price"];
     rows := [[VStr "10"]; [VStr "abc"]; [VNone]] |}.

Definition price_inf : DataFrame :=
  {| columns := ["product_id"; "price"];
     rows := [[VInt 1; VStr "inf"]; [VInt 2; VStr "-1"]] |}.

(** Two rows that differ only in how the same instant is written. *)
Definition same_instant_twice : DataFrame :=
  {| columns := ["product_id"; "timestamp"; "price"];
     rows := [ [VInt 1; VStr "2020-01-01 00:00:00.0"; VInt 5];
               [VInt 1; VStr "2020-01-01 00:00:00.00"; VInt 5] ] |}.

Definition bad_timestamp : DataFrame :=
  {| columns := ["product_id"; "timestamp"];
     rows := [ [VInt 1; VStr "2020-01-01"];
               [VInt 2; VStr "yesterday"] ] |}.

(** A frame with a [price] column and no row. *)
Definition header_only : DataFrame :=
  {| columns := ["price"]; rows := [] |}.

(** A frame with two rows and no column. *)
Definition no_columns : DataFrame :=
  {| columns := []; rows := [[]; []] |}.

(** A timestamp that cannot be converted, in a row that is the same as
    the row before it. *)
Definition bool_after_int : DataFrame :=
  {| columns := ["timestamp"]; rows := [[VInt 1]; [VBool true]] |}.

(** An integer and a float with the same value. *)
Definition int_then_float : DataFrame :=
  {| columns := ["product_id"]; rows := [[VInt 1]; [VFloat (PyFloat.of_Z 1)]] |}.

Definition duplicated_rows : DataFrame :=
  {| columns := ["product_id"; "price"];
     rows := [ [VInt 1; VInt 10]; [VInt 1; VInt 10]; [VInt 2; VInt 10] ] |}.

(** The cell of row [r] under the label [name] in the frame [df]. *)
Definition lookup (df : DataFrame) (name : string) (r : row) : option value :=
  option_map (fun i => cell i r) (index_of name (columns df)).

(** The rows of the right frame whose key is the same as the key of
    [l]. *)
Definition matching (i j : nat) (right_rows : list row) (l : row) : list row :=
  filter (fun r => same_value true (cell i l) (cell j r)) right_rows.

Fixpoint ends_with (suffix s : string) : bool :=
  String.eqb s suffix
  || match s with
     | String _ s' => ends_with suffix s'
     | EmptyString => false
     end.

Definition transactions_example : DataFrame :=
  {| columns := ["customer_id"; "product_id"; "quantity"; "price"];
     rows := [ [VInt 7; VInt 1; VInt 3; VInt 10];
               [VInt 8; VInt 3; VInt 1; VInt 10];
               [VInt 9; VInt 1; VInt 2; VInt 11] ] |}.

Definition catalog_example : DataFrame :=
  {| columns := ["product_id"; "product_name"; "category"; "price"];
     rows := [ [VInt 1; VStr "A"; VStr "toys"; VInt 12];
               [VInt 2; VStr "B"; VStr "food"; VInt 20] ] |}.

Definition merged_example : DataFrame :=
  {| columns := ["customer_id"; "product_id"; "quantity"; "price_x";
                 "product_name"; "category"; "price_y"];
     rows := [ [VInt 7; VInt 1; VInt 3; VInt 10; VStr "A"; VStr "toys"; VInt 12];
               [VInt 9; VInt 1; VInt 2; VInt 11; VStr "A"; VStr "toys"; VInt 12] ] |}.

(** The total recorded for key [k] in a list of groups, if [k] has a
    group. *)
Fixpoint group_total (groups : list (Sql.group_key * Z)) (k : Sql.group_key)
  : option Z :=
  match groups with
  | [] => None
  | (k', s) :: groups' =>
      if Sql.key_eqb k k' then Some s else group_total groups' k
  end.

(** Totals in descending order. *)
Definition descending (l : list (Sql.group_key * Z)) : Prop :=
  StronglySorted (fun a b => snd b <= snd a) l.

Definition sales_example : list Sql.unified_transaction :=
  [ {| Sql.product_id := 1; Sql.product_name := "A"; Sql.quantity := 3 |};
    {| Sql.product_id := 1; Sql.product_name := "A"; Sql.quantity := 2 |};
    {| Sql.product_id := 2; Sql.product_name := "B"; Sql.quantity := 10 |} ].

(** A server that refuses the first two connections. *)
Definition fails_twice (k : nat) : result unit :=
  if (k <? 2)%nat then Raise OperationalError else Ok tt.

(** ** The rest of the program

    [load_data] and the body of the [with] block. The program reads two
    files, writes to the database, queries it, prints and writes three
    CSV files. What these calls answer is not decided by the program:
    it is given by an [outside]. A run is a function of the outside and
    yields the list of the calls made, in order, and the result of the
    block, which is an exception as soon as a call or a step raises. The
    run is also a function of the two things pandas decides outside the
    values of a frame: how a series of timestamps is read and which key
    columns a join refuses. *)

Module Pipeline.

(** The three queries, in the order of the program: the best sellers,
    the average order value per customer, the total revenue per
    category. *)
Inductive query : Type :=
| BestSellers
| AverageOrderValue
| TotalRevenue.

Inductive effect : Type :=
| Connect
| Close
| ReadCsv (path : string)
| ReadJson (path : string)
| ToSql (schema name : string) (df : DataFrame)
| ReadSql (q : query)
| PrintFrame (df : DataFrame)
| PrintDone
| ToCsv (path : string) (df : DataFrame).

Record outside : Type := {
  connect : result unit;
  read_csv : string -> result DataFrame;
  read_json : string -> result DataFrame;
  to_sql : string -> string -> DataFrame -> result unit;
  read_sql : query -> result DataFrame;
  to_csv : string -> DataFrame -> result unit
}.

(** A step of the program: from the calls made so far to the calls made
    after it, with its result. *)
Definition prog (A : Type) : Type := list effect -> list effect * result A.

Definition pbind {A B : Type} (m : prog A) (k : A -> prog B) : prog B :=
  fun log =>
    match m log with
    | (log', Ok a) => k a log'
    | (log', Raise e) => (log', Raise e)
    end.

(** A call to the outside is recorded, whatever it answers. *)
Definition call {A : Type} (e : effect) (answer : result A) : prog A :=
  fun log => (log ++ [e], answer).

(** A step that calls nothing. *)
Definition lift {A : Type} (r : result A) : prog A :=
  fun log => (log, r).

Declare Scope prog_scope.
Delimit Scope prog_scope with prog.
Notation "x <- m ;; k" := (pbind m (fun x => k))
  (at level 61, m at next level, right associativity) : prog_scope.
Local Open Scope prog_scope.

Section Run.

Variable parse_datetime : list value -> value -> option datetime.
Variable refuses_keys : list value -> list value -> bool.
Variable world : outside.

(**
<<
    if type == "csv":
        return pd.read_csv(path)
    elif type == "json":
        return pd.read_json(path)
    else:
        raise Exception("File extension not supported")
>>
    [OtherError] stands for the plain [Exception]. *)
Definition load_data (path type : string) : prog DataFrame :=
  if String.eqb type "csv" then call (ReadCsv path) (read_csv world path)
  else if String.eqb type "json" then call (ReadJson path) (read_json world path)
  else lift (Raise OtherError).

(** [df.to_sql(name=..., schema=..., con=conn, if_exists="append",
    index=False)] *)
Definition to_sql_append (df : DataFrame) (name schema : string) : prog unit :=
  call (ToSql schema name df) (to_sql world schema name df).

(** A query, its [print] and its [to_csv]. *)
Definition report (q : query) (path : string) : prog unit :=
  df <- call (ReadSql q) (read_sql world q) ;;
  _ <- call (PrintFrame df) (Ok tt) ;;
  call (ToCsv path df) (to_csv world path df).

(** The body of the [with] block, lines 83 to 174 of [main.py]. *)
Definition body : prog unit :=
  customer_txn_df <- load_data "./raw/customer_transactions.json" "json" ;;
  product_cat_df <- load_data "./raw/product_catalog.csv" "csv" ;;
  _ <- to_sql_append customer_txn_df "customer_transactions" "raw" ;;
  _ <- to_sql_append product_cat_df "product_catalog" "raw" ;;
  clean_customer_txn_df <- lift (clean_data parse_datetime customer_txn_df) ;;
  clean_product_cat_df <- lift (clean_data parse_datetime product_cat_df) ;;
  _ <- to_sql_append clean_customer_txn_df "customer_transactions" "ingest" ;;
  _ <- to_sql_append clean_product_cat_df "product_catalog" "ingest" ;;
  merged <- lift (merge_data refuses_keys clean_customer_txn_df clean_product_cat_df) ;;
  _ <- to_sql_append merged "unified_transactions" "curate" ;;
  _ <- report BestSellers "./output/top2_best_selling.csv" ;;
  _ <- report AverageOrderValue "./output/average_order_value_per_customer.csv" ;;
  _ <- report TotalRevenue "./output/total_revenue_per_product.csv" ;;
  call PrintDone (Ok tt).

(** [with engine.connect() as conn: ...]: the connection is closed when
    the block is left, by its end or by an exception. *)
Definition with_connection {A : Type} (block : prog A) : prog A :=
  fun log =>
    match call Connect (connect world) log with
    | (log', Ok _) =>
        let '(log'', r) := block log' in (log'' ++ [Close], r)
    | (log', Raise e) => (log', Raise e)
    end.

Definition main_block : list effect * result unit :=
  with_connection body [].

End Run.

End Pipeline.

(** An outside where every call succeeds, with the two example frames
    in the files. *)
Definition quiet_outside : Pipeline.outside :=
  {| Pipeline.connect := Ok tt;
     Pipeline.read_csv := fun _ => Ok catalog_example;
     Pipeline.read_json := fun _ => Ok transactions_example;
     Pipeline.to_sql := fun _ _ _ => Ok tt;
     Pipeline.read_sql := fun _ => Ok merged_example;
     Pipeline.to_csv := fun _ _ => Ok tt |}.

(** The same, with a file of transactions that cannot be cleaned. *)
Definition bad_file_outside : Pipeline.outside :=
  {| Pipeline.connect := Ok tt;
     Pipeline.read_csv := fun _ => Ok catalog_example;
     Pipeline.read_json := fun _ => Ok bad_timestamp;
     Pipeline.to_sql := fun _ _ _ => Ok tt;
     Pipeline.read_sql := fun _ => Ok merged_example;
     Pipeline.to_csv := fun _ _ => Ok tt |}.

(** * Properties *)

(** ** The validator *)

Lemma gt0_spec (f : spec_float) :
  PyFloat.gt0 f = true <->
  f = S754_infinity false \/ exists m e, f = S754_finite false m e.
Proof.
  unfold PyFloat.gt0, SFltb, PyFloat.zero.
  destruct f as [s | s | | s m e]; simpl.
  - split; [discriminate | intros [H | (m & e & H)]; discriminate].
  - destruct s; simpl; split; auto; try discriminate.
    intros [H | (m & e & H)]; discriminate.
  - split; [discriminate | intros [H | (m & e & H)]; discriminate].
  - destruct s; simpl; split; eauto; try discriminate.
    intros [H | (m' & e' & H)]; discriminate.
Qed.

Lemma is_valid_value_inv (v : value) (b : bool) :
  is_valid_value v = Ok b ->
  (exists f, py_float v = Ok f /\ b = PyFloat.gt0 f)
  \/ (py_float v = Raise ValueError /\ b = false).
Proof.
  unfold is_valid_value.
  destruct (py_float v) as [f | e].
  - intros H. injection H as <-. left. eauto.
  - destruct e; intros H; try discriminate.
    injection H as <-. right. auto.
Qed.

(** X1: The inputs on which [is_valid_value] returns: floats, booleans and
    strings always, integers within the range of a binary64. *)
Lemma is_valid_value_returns (v : value) :
  (exists b, is_valid_value v = Ok b) <->
  match v with
  | VNone | VDatetime _ => False
  | VInt z => forall s, PyFloat.of_Z z <> S754_infinity s
  | _ => True
  end.
Proof.
  unfold is_valid_value. destruct v as [| b | z | f | s | d]; simpl.
  - split; [intros [b H]; discriminate | contradiction].
  - split; [auto | eauto].
  - destruct (PyFloat.of_Z z) as [s | s | | s m e].
    + split; [intros _ s'; discriminate | eauto].
    + split; [intros [b H]; discriminate |].
      intros H. exfalso. apply (H s). reflexivity.
    + split; [intros _ s'; discriminate | eauto].
    + split; [intros _ s'; discriminate | eauto].
  - split; [auto | eauto].
  - destruct (PyFloat.of_string s); split; auto; eauto.
  - split; [intros [b H]; discriminate | contradiction].
Qed.

(** C1 (the code departs from the claim): [is_valid_value] is not total.
    On [None], [float] raises [TypeError], which the handler for
    [ValueError] does not catch, so the call raises instead of returning
    [False]; an integer beyond the binary64 range raises [OverflowError]
    in the same way. *)
Theorem is_valid_value_raises :
  is_valid_value VNone = Raise TypeError
  /\ is_valid_value (VInt (10 ^ 400)) = Raise OverflowError.
Proof.
  split; vm_compute; reflexivity.
Qed.

(** C2: [is_valid_value v] returns [True] exactly when [float(v)]
    succeeds and the number it yields is strictly greater than zero; it
    is [True] on ["5"] and [False] on ["-3"], ["abc"] and ["0"]. *)
Theorem is_valid_value_true_iff :
  (forall v : value,
      is_valid_value v = Ok true <->
      exists f, py_float v = Ok f /\ SFltb PyFloat.zero f = true)
  /\ is_valid_value (VStr "5") = Ok true
  /\ is_valid_value (VStr "-3") = Ok false
  /\ is_valid_value (VStr "abc") = Ok false
  /\ is_valid_value (VStr "0") = Ok false.
Proof.
  split; [| repeat split; vm_compute; reflexivity].
  intros v. split.
  - intros H. apply is_valid_value_inv in H.
    destruct H as [(f & Hf & Hb) | (_ & Hb)]; [| discriminate].
    exists f. split; [exact Hf | symmetry; exact Hb].
  - intros (f & Hf & Hpos). unfold is_valid_value. rewrite Hf.
    unfold PyFloat.gt0. rewrite Hpos. reflexivity.
Qed.

Lemma subseq_refl {A : Type} (l : list A) : subseq l l.
Proof.
  induction l; constructor; assumption.
Qed.

Lemma subseq_nil_l {A : Type} (l : list A) : subseq [] l.
Proof.
  induction l; constructor; assumption.
Qed.

Lemma subseq_In {A : Type} (k l : list A) (a : A) :
  subseq k l -> In a k -> In a l.
Proof.
  induction 1; simpl; intuition.
Qed.

Lemma subseq_trans {A : Type} (j k l : list A) :
  subseq j k -> subseq k l -> subseq j l.
Proof.
  intros Hjk Hkl. revert j Hjk.
  induction Hkl as [| a k l Hkl IH | a k l Hkl IH]; intros j Hjk.
  - exact Hjk.
  - constructor. apply IH. exact Hjk.
  - inversion Hjk; subst.
    + constructor. apply IH. assumption.
    + apply subseq_keep. apply IH. assumption.
Qed.
(** ** Equality of rows *)

Lemma cell_key_eqb_eq (a b : cell_key) : cell_key_eqb a b = true <-> a = b.
Proof.
  destruct a, b; simpl;
    try (split; [discriminate | intros H; discriminate H]);
    try (split; reflexivity).
  - rewrite Z.eqb_eq. split; congruence.
  - rewrite !andb_true_iff, Bool.eqb_true_iff, Pos.eqb_eq, Z.eqb_eq.
    split; [intros [[-> ->] ->]; reflexivity | intros H; injection H; auto].
  - rewrite Bool.eqb_true_iff. split; congruence.
  - rewrite String.eqb_eq. split; congruence.
  - rewrite Z.eqb_eq. split; congruence.
Qed.

Lemma cell_key_eq_dec (a b : cell_key) : {a = b} + {a <> b}.
Proof.
  destruct (cell_key_eqb a b) eqn:E.
  - left. apply cell_key_eqb_eq. exact E.
  - right. intros H. apply cell_key_eqb_eq in H. congruence.
Qed.

Lemma same_value_iff (alike : bool) (a b : value) :
  same_value alike a b = true <-> compared_by alike a = compared_by alike b.
Proof.
  apply cell_key_eqb_eq.
Qed.

Lemma same_row_iff (alike : bool) (a b : row) :
  same_row alike a b = true <-> row_key alike a = row_key alike b.
Proof.
  unfold row_key.
  revert b. induction a as [| x a IH]; intros [| y b]; simpl;
    try (split; [discriminate | intros H; discriminate H]).
  - split; reflexivity.
  - rewrite andb_true_iff, same_value_iff, IH. split.
    + intros [-> ->]. reflexivity.
    + intros H. injection H. auto.
Qed.

Lemma same_row_refl (alike : bool) (a : row) : same_row alike a a = true.
Proof.
  apply same_row_iff. reflexivity.
Qed.

Lemma row_key_length (alike : bool) (a b : row) :
  row_key alike a = row_key alike b -> List.length a = List.length b.
Proof.
  unfold row_key. intros H.
  rewrite <- (length_map (compared_by alike) a), H. apply length_map.
Qed.

(** Rows that are compared by the same values hold, in every column,
    cells that are compared by the same value. *)
Lemma row_key_cell (alike : bool) (a b : row) (i : nat) :
  row_key alike a = row_key alike b ->
  (i < List.length a)%nat ->
  compared_by alike (cell i a) = compared_by alike (cell i b).
Proof.
  unfold row_key, cell. intros H Hi.
  assert (E : forall r : row, (i < List.length r)%nat ->
              nth i (map (compared_by alike) r) KNone
              = compared_by alike (nth i r VNone)).
  { intros r Hr.
    rewrite (nth_indep _ KNone (compared_by alike VNone))
      by (rewrite length_map; exact Hr).
    apply map_nth. }
  rewrite <- !E; [rewrite H; reflexivity | | exact Hi].
  rewrite <- (length_map (compared_by alike) b), <- H, length_map. exact Hi.
Qed.

(** A string is only compared equal to the same string. *)
Lemma compared_by_VStr (alike : bool) (v : value) (s : string) :
  compared_by alike v = compared_by alike (VStr s) -> v = VStr s.
Proof.
  unfold compared_by. simpl.
  destruct v as [| b | z | f | t | [ns |]]; simpl; try discriminate.
  - destruct f as [b | b | | b m e]; simpl; try discriminate.
    + destruct alike; discriminate.
    + destruct (odd_part m) as [q k]. destruct (0 <=? e + k); discriminate.
  - congruence.
  - destruct alike; discriminate.
Qed.

(** The positive infinity is only compared equal to itself. *)
Lemma compared_by_inf (alike : bool) (v : value) :
  compared_by alike v = compared_by alike (VFloat PyFloat.inf) ->
  v = VFloat PyFloat.inf.
Proof.
  unfold compared_by. simpl.
  destruct v as [| b | z | f | t | [ns |]]; simpl; try discriminate.
  - destruct f as [b | b | | b m e]; simpl; try discriminate.
    + intros H. injection H as ->. reflexivity.
    + destruct alike; discriminate.
    + destruct (odd_part m) as [q k]. destruct (0 <=? e + k); discriminate.
  - destruct alike; discriminate.
Qed.

Lemma seen_iff (alike : bool) (seen : list row) (r : row) :
  existsb (fun r' => same_row alike r' r) seen = true
  <-> In (row_key alike r) (map (row_key alike) seen).
Proof.
  rewrite existsb_exists, in_map_iff. split.
  - intros (r' & Hin & Heq). apply same_row_iff in Heq. eauto.
  - intros (r' & Heq & Hin). exists r'. split; [exact Hin |].
    apply same_row_iff. exact Heq.
Qed.

Lemma seen_false_iff (alike : bool) (seen : list row) (r : row) :
  existsb (fun r' => same_row alike r' r) seen = false
  <-> ~ In (row_key alike r) (map (row_key alike) seen).
Proof.
  rewrite <- seen_iff. destruct (existsb _ seen); split; congruence.
Qed.

(** ** [drop_duplicates] *)

Section DropDups.

Variable alike : bool.

Lemma drop_dups_keys (seen rs : list row) (k : list cell_key) :
  In k (map (row_key alike) (drop_dups alike seen rs))
  <-> In k (map (row_key alike) rs) /\ ~ In k (map (row_key alike) seen).
Proof.
  revert seen. induction rs as [| a rs IH]; intros seen; simpl.
  - tauto.
  - destruct (existsb (fun r' => same_row alike r' a) seen) eqn:E.
    + apply seen_iff in E. rewrite IH. simpl. split.
      * intros [Hin Hn]. split; [right; exact Hin | tauto].
      * intros [[<- | Hin] Hn]; [contradiction |].
        split; [exact Hin |]. intros [<- | Hs]; contradiction.
    + apply seen_false_iff in E. simpl. rewrite IH. simpl. split.
      * intros [<- | [Hin Hn]]; [tauto |]. split; [right; exact Hin | tauto].
      * intros [[<- | Hin] Hn]; [left; reflexivity |].
        destruct (list_eq_dec cell_key_eq_dec (row_key alike a) k) as [<- | Hne].
        -- left. reflexivity.
        -- right. split; [exact Hin |]. intros [Heq | Hs]; [congruence | tauto].
Qed.

Lemma drop_dups_subseq (seen rs : list row) :
  subseq (drop_dups alike seen rs) rs.
Proof.
  revert seen. induction rs as [| a rs IH]; intros seen; simpl.
  - constructor.
  - destruct (existsb (fun r' => same_row alike r' a) seen); constructor; apply IH.
Qed.

Lemma drop_dups_In (seen rs : list row) (r : row) :
  In r (drop_dups alike seen rs) ->
  In r rs /\ ~ In (row_key alike r) (map (row_key alike) seen).
Proof.
  intros H. split.
  - eapply subseq_In; [apply drop_dups_subseq | exact H].
  - apply (in_map (row_key alike)) in H. apply drop_dups_keys in H. tauto.
Qed.

(** Every row has a first occurrence that is kept. *)
Lemma drop_dups_first (seen rs : list row) (r : row) :
  In r rs -> ~ In (row_key alike r) (map (row_key alike) seen) ->
  exists r', In r' (drop_dups alike seen rs) /\ In r' rs
             /\ row_key alike r' = row_key alike r.
Proof.
  intros Hin Hn.
  assert (H : In (row_key alike r) (map (row_key alike) (drop_dups alike seen rs))).
  { apply drop_dups_keys. split; [apply in_map; exact Hin | exact Hn]. }
  apply in_map_iff in H. destruct H as (r' & Heq & Hr').
  exists r'. split; [exact Hr' |]. split; [| exact Heq].
  apply drop_dups_In in Hr'. tauto.
Qed.

Lemma drop_dups_NoDup (seen rs : list row) :
  NoDup (map (row_key alike) (drop_dups alike seen rs)).
Proof.
  revert seen. induction rs as [| a rs IH]; intros seen; simpl.
  - constructor.
  - destruct (existsb (fun r' => same_row alike r' a) seen); [apply IH |].
    simpl. constructor; [| apply IH].
    rewrite drop_dups_keys. simpl. tauto.
Qed.

Lemma drop_dups_id (seen rs : list row) :
  NoDup (map (row_key alike) rs) ->
  (forall r, In r rs -> ~ In (row_key alike r) (map (row_key alike) seen)) ->
  drop_dups alike seen rs = rs.
Proof.
  revert seen. induction rs as [| a rs IH]; intros seen Hnd Hdis; simpl.
  - reflexivity.
  - simpl in Hnd. inversion Hnd as [| ? ? Hna Hnd']; subst.
    assert (E : existsb (fun r' => same_row alike r' a) seen = false).
    { apply seen_false_iff. apply Hdis. left. reflexivity. }
    rewrite E. f_equal. apply IH; [exact Hnd' |].
    intros r Hin [Heq | Hs].
    + apply Hna. rewrite Heq. apply in_map. exact Hin.
    + apply (Hdis r); [right; exact Hin | exact Hs].
Qed.

Lemma drop_dups_app (seen p q : list row) :
  drop_dups alike seen (p ++ q)
  = drop_dups alike seen p ++ drop_dups alike (rev p ++ seen) q.
Proof.
  revert seen. induction p as [| a p IH]; intros seen; simpl.
  - reflexivity.
  - rewrite IH. rewrite <- app_assoc. simpl.
    destruct (existsb (fun r' => same_row alike r' a) seen); reflexivity.
Qed.

End DropDups.

Lemma columns_drop_duplicates (df : DataFrame) :
  columns (drop_duplicates df) = columns df.
Proof.
  unfold drop_duplicates. destruct (frame_empty df); reflexivity.
Qed.

(** The rows of [drop_duplicates]: those of the frame when it has no
    column, its first occurrences otherwise. *)
Lemma rows_drop_duplicates (df : DataFrame) :
  rows (drop_duplicates df)
  = match columns df with
    | [] => rows df
    | _ => drop_dups (missing_alike (columns df)) [] (rows df)
    end.
Proof.
  unfold drop_duplicates, frame_empty.
  destruct (columns df) as [| c cols]; [reflexivity |].
  destruct (rows df) as [| r rs] eqn:E; [rewrite E |]; reflexivity.
Qed.

Lemma drop_duplicates_subseq (df : DataFrame) :
  subseq (rows (drop_duplicates df)) (rows df).
Proof.
  rewrite rows_drop_duplicates.
  destruct (columns df); [apply subseq_refl | apply drop_dups_subseq].
Qed.

Lemma drop_duplicates_In (df : DataFrame) (r : row) :
  In r (rows (drop_duplicates df)) -> In r (rows df).
Proof.
  apply subseq_In. apply drop_duplicates_subseq.
Qed.

(** Every row of a frame has a duplicate, itself or an earlier row, that
    [drop_duplicates] keeps. *)
Lemma drop_duplicates_first (df : DataFrame) (r : row) :
  In r (rows df) ->
  exists r', In r' (rows (drop_duplicates df)) /\ In r' (rows df)
             /\ duplicates (columns df) r' r.
Proof.
  intros Hin. rewrite rows_drop_duplicates. unfold duplicates.
  destruct (columns df) as [| c cols] eqn:E.
  - exists r. split; [exact Hin |]. split; [exact Hin | apply same_row_refl].
  - destruct (drop_dups_first (missing_alike (c :: cols)) [] (rows df) r Hin)
      as (r' & H1 & H2 & H3); [simpl; tauto |].
    exists r'. split; [exact H1 |]. split; [exact H2 |].
    apply same_row_iff. exact H3.
Qed.

Lemma drop_duplicates_no_rows (df : DataFrame) :
  rows (drop_duplicates df) = [] <-> rows df = [].
Proof.
  split.
  - intros H. destruct (rows df) as [| r rs] eqn:E; [reflexivity |].
    destruct (drop_duplicates_first df r) as (r' & Hr' & _).
    { rewrite E. left. reflexivity. }
    rewrite H in Hr'. contradiction.
  - intros H. pose proof (drop_duplicates_subseq df) as S. rewrite H in S.
    inversion S. reflexivity.
Qed.

(** A frame without duplicates is left as it is. *)
Lemma drop_duplicates_id (df : DataFrame) :
  no_duplicates (columns df) (rows df) -> drop_duplicates df = df.
Proof.
  unfold no_duplicates, drop_duplicates. intros H.
  destruct (frame_empty df); [reflexivity |].
  rewrite drop_dups_id; [destruct df; reflexivity | exact H | simpl; tauto].
Qed.

Lemma drop_duplicates_no_duplicates (df : DataFrame) :
  columns df <> [] ->
  no_duplicates (columns df) (rows (drop_duplicates df)).
Proof.
  unfold no_duplicates. intros H. rewrite rows_drop_duplicates.
  destruct (columns df) as [| c cols] eqn:E; [contradiction |].
  apply drop_dups_NoDup.
Qed.

Lemma drop_duplicates_idempotent (df : DataFrame) :
  drop_duplicates (drop_duplicates df) = drop_duplicates df.
Proof.
  destruct (columns df) as [| c cols] eqn:E.
  - unfold drop_duplicates at 2. unfold frame_empty. rewrite E.
    unfold drop_duplicates, frame_empty. rewrite E. reflexivity.
  - apply drop_duplicates_id. rewrite columns_drop_duplicates.
    apply drop_duplicates_no_duplicates. rewrite E. discriminate.
Qed.

(** ** Running a function over a series *)

Lemma mapM_Ok {A B : Type} (f : A -> result B) (l : list A) (l' : list B) :
  mapM f l = Ok l' <-> Forall2 (fun a b => f a = Ok b) l l'.
Proof.
  revert l'. induction l as [| a l IH]; intros l'; simpl.
  - split.
    + intros H. injection H as <-. constructor.
    + intros H. inversion H. reflexivity.
  - split.
    + destruct (f a) as [b | e] eqn:Ea; simpl; [| discriminate].
      destruct (mapM f l) as [bs | e]; simpl; [| discriminate].
      intros H. injection H as <-. constructor; [exact Ea |].
      apply IH. reflexivity.
    + intros H. inversion H as [| ? b ? bs Hab Hrest]; subst.
      rewrite Hab. simpl.
      apply IH in Hrest. rewrite Hrest. reflexivity.
Qed.

Lemma mapM_Raise {A B : Type} (f : A -> result B) (l : list A) (e : exn) :
  mapM f l = Raise e -> exists a, In a l /\ f a = Raise e.
Proof.
  induction l as [| a l IH]; simpl; [discriminate |].
  destruct (f a) as [b | e'] eqn:Ea; simpl.
  - destruct (mapM f l) as [bs | e'']; simpl; [discriminate |].
    intros H. injection H as ->.
    destruct IH as (a' & Hin & Ha'); [reflexivity |]. eauto.
  - intros H. injection H as ->. eauto.
Qed.

Lemma mapM_fails {A B : Type} (f : A -> result B) (l : list A) (a : A) (e : exn) :
  In a l -> f a = Raise e -> exists e', mapM f l = Raise e'.
Proof.
  induction l as [| x l IH]; simpl; [contradiction |].
  intros [-> | Hin] Ha.
  - rewrite Ha. simpl. eauto.
  - destruct (f x) as [b | e0]; simpl; [| eauto].
    destruct (IH Hin Ha) as (e' & ->). simpl. eauto.
Qed.

(** ** The steps of [clean_data] *)

Lemma rbind_Ok {A B : Type} (m : result A) (k : A -> result B) (b : B) :
  rbind m k = Ok b <-> exists a, m = Ok a /\ k a = Ok b.
Proof.
  destruct m as [a | e]; simpl.
  - split; [eauto | intros (a' & H & K); injection H as <-; exact K].
  - split; [discriminate | intros (a' & H & _); discriminate].
Qed.

Lemma rbind_ret {A : Type} (m : result A) : rbind m (fun a => Ok a) = m.
Proof.
  destruct m; reflexivity.
Qed.

Lemma set_nth_out_of_range {A : Type} (i : nat) (a : A) (l : list A) :
  (List.length l <= i)%nat -> set_nth i a l = l.
Proof.
  revert i. induction l as [| x l IH]; intros [| i] H; simpl in *;
    try reflexivity; try lia.
  rewrite IH by lia. reflexivity.
Qed.

Lemma cell_set_nth_same (i : nat) (v : value) (r : row) :
  (i < List.length r)%nat -> cell i (set_nth i v r) = v.
Proof.
  unfold cell. revert i. induction r as [| x r IH]; intros [| i] H; simpl in *;
    try lia; try reflexivity.
  apply IH. lia.
Qed.

Lemma cell_set_nth_other (i j : nat) (v : value) (r : row) :
  i <> j -> cell j (set_nth i v r) = cell j r.
Proof.
  unfold cell. revert i j. induction r as [| x r IH]; intros [| i] [| j] H; simpl;
    try reflexivity; try congruence.
  apply IH. congruence.
Qed.

Lemma set_nth_set_nth {A : Type} (i : nat) (a b : A) (l : list A) :
  set_nth i a (set_nth i b l) = set_nth i a l.
Proof.
  revert i. induction l as [| x l IH]; intros [| i]; simpl; try reflexivity.
  rewrite IH. reflexivity.
Qed.

Lemma assign_rows_Forall2 (f : value -> result value) (i : nat)
      (rs : list row) (ts : list value) :
  Forall2 (fun v t => f v = Ok t) (map (cell i) rs) ts ->
  Forall2 (fun k o => exists t, f (cell i k) = Ok t /\ o = set_nth i t k)
          rs (assign_rows i rs ts).
Proof.
  revert ts. induction rs as [| r rs IH]; intros ts H; simpl in *.
  - inversion H. constructor.
  - inversion H as [| ? t ? ts' Hrt Hrest]; subst. simpl.
    constructor; [eauto | apply IH; exact Hrest].
Qed.

Lemma select_rows_filter (j : nat) (rs : list row) (mask : list bool) :
  Forall2 (fun v b => is_valid_value v = Ok b) (map (cell j) rs) mask ->
  select_rows rs mask = filter (fun r => valid_price (cell j r)) rs.
Proof.
  revert mask. induction rs as [| r rs IH]; intros mask H; simpl in *.
  - inversion H. reflexivity.
  - inversion H as [| ? b ? mask' Hb Hrest]; subst.
    unfold valid_price at 1. rewrite Hb.
    rewrite (IH mask' Hrest). destruct b; reflexivity.
Qed.

Lemma valid_price_true (v : value) :
  valid_price v = true <-> is_valid_value v = Ok true.
Proof.
  unfold valid_price. destruct (is_valid_value v) as [[|] | e]; split;
    congruence.
Qed.
Lemma index_of_nth_error (name : string) (cols : list string) (i : nat) :
  index_of name cols = Some i -> nth_error cols i = Some name.
Proof.
  revert i. induction cols as [| c cols IH]; intros i; simpl; [discriminate |].
  destruct (String.eqb name c) eqn:E.
  - intros H. injection H as <-. apply String.eqb_eq in E. subst. reflexivity.
  - destruct (index_of name cols) as [k |]; simpl; [| discriminate].
    intros H. injection H as <-. simpl. apply IH. reflexivity.
Qed.

Lemma index_of_In (name : string) (cols : list string) :
  In name cols <-> exists i, index_of name cols = Some i.
Proof.
  induction cols as [| c cols IH]; simpl.
  - split; [contradiction | intros (i & H); discriminate].
  - destruct (String.eqb name c) eqn:E.
    + apply String.eqb_eq in E. subst. split; eauto.
    + apply String.eqb_neq in E. rewrite IH. split.
      * intros [H | (i & ->)]; [congruence |]. simpl. eauto.
      * intros (i & H). right.
        destruct (index_of name cols) as [k |]; [eauto | discriminate].
Qed.

Lemma set_nth_length {A : Type} (i : nat) (a : A) (l : list A) :
  List.length (set_nth i a l) = List.length l.
Proof.
  revert i. induction l as [| x l IH]; intros [| i]; simpl; auto.
Qed.

Lemma to_datetime_scalar_datetime parse series (v t : value) :
  to_datetime_scalar parse series v = Ok t -> exists d, t = VDatetime d.
Proof.
  unfold to_datetime_scalar.
  destruct v as [| b | z | f | s | d];
    try (destruct (parse _ _); intros H; [injection H as <-; eauto | discriminate]).
  - intros H. injection H as <-. eauto.
  - destruct f; try (destruct (parse _ _); intros H;
                     [injection H as <-; eauto | discriminate]).
    intros H. injection H as <-. eauto.
  - intros H. injection H as <-. eauto.
Qed.

Lemma to_datetime_scalar_only_ParseError parse series (v : value) (e : exn) :
  to_datetime_scalar parse series v = Raise e -> e = ParseError.
Proof.
  unfold to_datetime_scalar.
  destruct v as [| b | z | f | s | d];
    try (destruct (parse _ _); intros H; [discriminate | injection H as <-; reflexivity]);
    try discriminate.
  destruct f; try (destruct (parse _ _); intros H;
                   [discriminate | injection H as <-; reflexivity]).
  discriminate.
Qed.

Section CleanFacts.

Variable parse : list value -> value -> option datetime.

Lemma clean_data_steps (df : DataFrame) :
  clean_data parse df =
  rbind (timestamp_step parse (columns df) (drop_duplicates df))
        (price_step (columns df)).
Proof.
  unfold clean_data, timestamp_step, price_step.
  rewrite columns_drop_duplicates.
  destruct (index_of "timestamp" (columns df)); simpl.
  - destruct (to_datetime parse (column n (drop_duplicates df))); simpl;
      [apply rbind_ret | reflexivity].
  - apply rbind_ret.
Qed.

Lemma timestamp_step_Ok (cols : list string) (df mid : DataFrame) :
  timestamp_step parse cols df = Ok mid ->
  columns mid = columns df
  /\ Forall2 (normalized_as parse (timestamps cols df) cols) (rows df) (rows mid).
Proof.
  unfold timestamp_step, normalized_as, timestamps.
  destruct (index_of "timestamp" cols) as [i |].
  - intros H. apply rbind_Ok in H. destruct H as (ts & Hts & Hmid).
    injection Hmid as <-. simpl. split; [reflexivity |].
    apply assign_rows_Forall2. apply mapM_Ok. exact Hts.
  - intros H. injection H as <-. split; [reflexivity |].
    induction (rows df); constructor; auto.
Qed.

(** The price step keeps the rows with a valid price; it keeps the
    labels too, unless it runs on a frame without rows. *)
Lemma price_step_Ok (cols : list string) (mid out : DataFrame) :
  price_step cols mid = Ok out ->
  rows out =
    match index_of "price" cols with
    | Some j => filter (fun r => valid_price (cell j r)) (rows mid)
    | None => rows mid
    end
  /\ columns out =
     match index_of "price" cols, rows mid with
     | Some _, [] => []
     | _, _ => columns mid
     end.
Proof.
  unfold price_step.
  destruct (index_of "price" cols) as [j |].
  - intros H. apply rbind_Ok in H. destruct H as (mask & Hmask & Hout).
    injection Hout as <-. apply mapM_Ok in Hmask. unfold column in Hmask.
    pose proof (select_rows_filter j (rows mid) mask Hmask) as Hsel.
    unfold select.
    destruct mask as [| b mask].
    + destruct (rows mid) as [| r rs]; [simpl; auto | inversion Hmask].
    + destruct (rows mid) as [| r rs] eqn:E; [inversion Hmask |].
      simpl columns. simpl rows. split; [exact Hsel | reflexivity].
  - intros H. injection H as <-. destruct (rows mid); auto.
Qed.

Lemma clean_data_Ok (df out : DataFrame) :
  clean_data parse df = Ok out ->
  exists mid : list row,
    Forall2 (normalized_as parse (timestamp_series df) (columns df))
            (rows (drop_duplicates df)) mid
    /\ rows out =
       match index_of "price" (columns df) with
       | Some j => filter (fun r => valid_price (cell j r)) mid
       | None => mid
       end
    /\ columns out =
       match index_of "price" (columns df), mid with
       | Some _, [] => []
       | _, _ => columns df
       end.
Proof.
  rewrite clean_data_steps. intros H.
  apply rbind_Ok in H. destruct H as (mid & Hmid & Hout).
  apply timestamp_step_Ok in Hmid. destruct Hmid as [Hc Hrows].
  apply price_step_Ok in Hout. destruct Hout as [Hrows' Hc'].
  rewrite Hc, columns_drop_duplicates in Hc'.
  exists (rows mid). split; [exact Hrows |]. split; [exact Hrows' | exact Hc'].
Qed.

(** The labels of a cleaned frame are those of the input, unless the
    cleaned frame has no row. *)
Lemma clean_data_columns (df out : DataFrame) :
  clean_data parse df = Ok out ->
  columns out = columns df
  \/ (out = {| columns := []; rows := [] |} /\ rows df = []
      /\ In "price" (columns df)).
Proof.
  intros H. apply clean_data_Ok in H.
  destruct H as (mid & Hmid & Hrows & Hc).
  destruct (index_of "price" (columns df)) as [j |] eqn:Hj; [| left; exact Hc].
  destruct mid as [| r mid]; [| left; exact Hc].
  right. simpl in Hrows. split; [destruct out; simpl in *; congruence |].
  split.
  - apply (proj1 (drop_duplicates_no_rows df)). inversion Hmid. reflexivity.
  - apply index_of_In. eauto.
Qed.

Lemma to_datetime_stable (i : nat) (series : list value) (rs : list row) :
  Forall (fun r => exists t,
            to_datetime_scalar parse series (cell i r) = Ok t
            /\ r = set_nth i t r) rs ->
  exists ts, mapM (to_datetime_scalar parse series) (map (cell i) rs) = Ok ts
             /\ assign_rows i rs ts = rs.
Proof.
  induction 1 as [| r rs (t & Ht & Hr) _ (ts & Hts & Has)]; simpl.
  - exists []. auto.
  - exists (t :: ts). rewrite Ht, Hts. simpl.
    rewrite <- Hr, Has. auto.
Qed.

Lemma timestamp_step_stable (cols : list string) (df : DataFrame) :
  Forall (fun r => normalized_as parse (timestamps cols df) cols r r) (rows df) ->
  timestamp_step parse cols df = Ok df.
Proof.
  unfold timestamp_step, normalized_as, timestamps. destruct df as [c rs]. simpl.
  destruct (index_of "timestamp" cols) as [i |]; [| reflexivity].
  intros H. unfold to_datetime, column, assign. simpl.
  destruct (to_datetime_stable i (map (cell i) rs) rs H) as (ts & -> & Has).
  simpl. rewrite Has. reflexivity.
Qed.

Lemma price_step_passes (cols : list string) (df : DataFrame) :
  Forall (passes cols) (rows df) ->
  exists out,
    price_step cols df = Ok out
    /\ rows out = rows df
    /\ columns out =
       match index_of "price" cols, rows df with
       | Some _, [] => []
       | _, _ => columns df
       end.
Proof.
  unfold price_step, passes. destruct df as [c rs]. simpl.
  destruct (index_of "price" cols) as [j |].
  - intros H. unfold series_apply, column, select. simpl.
    assert (K : exists mask, mapM is_valid_value (map (cell j) rs) = Ok mask
                             /\ select_rows rs mask = rs
                             /\ (mask = [] <-> rs = [])).
    { induction H as [| r rs Hr _ (mask & Hmask & Hsel & _)]; simpl.
      - exists []. split; [reflexivity |]. split; [reflexivity | tauto].
      - exists (true :: mask). rewrite Hr, Hmask. simpl.
        rewrite Hsel. split; [reflexivity |]. split; [reflexivity |].
        split; discriminate. }
    destruct K as (mask & -> & Hsel & Hnil). simpl.
    destruct mask as [| b mask].
    + destruct rs as [| r rs]; [| destruct Hnil as [Hnil _];
                                   discriminate (Hnil eq_refl)].
      eexists. split; [reflexivity |]. auto.
    + destruct rs as [| r rs]; [destruct Hnil as [_ Hnil];
                                discriminate (Hnil eq_refl) |].
      eexists. split; [reflexivity |]. split; [exact Hsel | reflexivity].
  - intros _. eexists. split; [reflexivity |]. destruct rs; auto.
Qed.

(** A row whose timestamp has been converted is in place in every
    series. *)
Lemma normalized_as_stable (series series' : list value) (cols : list string)
      (k o : row) :
  normalized_as parse series cols k o -> normalized_as parse series' cols o o.
Proof.
  unfold normalized_as. destruct (index_of "timestamp" cols) as [i |]; [| auto].
  intros (t & Ht & ->).
  destruct (Nat.lt_ge_cases i (List.length k)) as [Hlt | Hge].
  - exists t. rewrite cell_set_nth_same by exact Hlt.
    rewrite set_nth_set_nth. split; [| reflexivity].
    destruct (to_datetime_scalar_datetime _ _ _ _ Ht) as (d & ->). reflexivity.
  - rewrite set_nth_out_of_range by exact Hge.
    exists (VDatetime NaT). split.
    + unfold cell. rewrite nth_overflow by exact Hge. reflexivity.
    + rewrite set_nth_out_of_range by exact Hge. reflexivity.
Qed.

Lemma Forall2_In_r {A B : Type} (R : A -> B -> Prop) (l : list A) (l' : list B) (b : B) :
  Forall2 R l l' -> In b l' -> exists a, In a l /\ R a b.
Proof.
  induction 1 as [| a b' l l' Hab _ IH]; simpl; [contradiction |].
  intros [<- | Hin]; [eauto |].
  destruct (IH Hin) as (a' & Ha' & HR). eauto.
Qed.

Lemma Forall2_In_l {A B : Type} (R : A -> B -> Prop) (l : list A) (l' : list B) (a : A) :
  Forall2 R l l' -> In a l -> exists b, In b l' /\ R a b.
Proof.
  induction 1 as [| a' b l l' Hab _ IH]; simpl; [contradiction |].
  intros [<- | Hin]; [eauto |].
  destruct (IH Hin) as (b' & Hb' & HR). eauto.
Qed.

Lemma Forall2_eq {A : Type} (l l' : list A) :
  Forall2 (fun a b => b = a) l l' -> l' = l.
Proof.
  induction 1; congruence.
Qed.

Lemma Forall2_filter_subseq {A B : Type} (R : A -> B -> Prop) (p : B -> bool)
      (l : list A) (l' : list B) :
  Forall2 R l l' ->
  exists k, subseq k l /\ Forall2 R k (filter p l').
Proof.
  induction 1 as [| a b l l' Hab _ (k & Hk & HR)]; simpl.
  - exists []. split; constructor.
  - destruct (p b).
    + exists (a :: k). split; constructor; assumption.
    + exists k. split; [constructor |]; assumption.
Qed.

(** The rows of a cleaned frame: each is in place after normalization
    and passes the price filter. *)
Lemma clean_data_rows (df out : DataFrame) :
  clean_data parse df = Ok out ->
  Forall (fun r => forall series,
            normalized_as parse series (columns df) r r) (rows out)
  /\ Forall (passes (columns df)) (rows out).
Proof.
  intros H. apply clean_data_Ok in H.
  destruct H as (mid & Hmid & Hrows & _).
  assert (Hst : Forall (fun r => forall series,
                          normalized_as parse series (columns df) r r) mid).
  { apply Forall_forall. intros o Ho series.
    destruct (Forall2_In_r _ _ _ _ Hmid Ho) as (k & _ & Hk).
    eapply normalized_as_stable. exact Hk. }
  unfold passes. rewrite Hrows.
  destruct (index_of "price" (columns df)) as [j |].
  - split.
    + apply Forall_forall. intros o Ho. apply filter_In in Ho.
      rewrite Forall_forall in Hst. apply Hst. tauto.
    + apply Forall_forall. intros o Ho. apply filter_In in Ho.
      apply valid_price_true. tauto.
  - split; [exact Hst |]. apply Forall_forall. auto.
Qed.

(** Cleaning a frame whose rows are in place and pass the price filter
    is deduplication, up to the labels of a frame without rows. *)
Lemma clean_data_stable (df : DataFrame) :
  Forall (fun r => forall series, normalized_as parse series (columns df) r r)
         (rows df) ->
  Forall (passes (columns df)) (rows df) ->
  exists out,
    clean_data parse df = Ok out
    /\ rows out = rows (drop_duplicates df)
    /\ (rows df <> [] \/ ~ In "price" (columns df) ->
        out = drop_duplicates df).
Proof.
  intros Hs Hp. rewrite clean_data_steps.
  rewrite timestamp_step_stable.
  2:{ apply Forall_forall. intros r Hr. apply drop_duplicates_In in Hr.
      rewrite Forall_forall in Hs. apply Hs. exact Hr. }
  simpl.
  destruct (price_step_passes (columns df) (drop_duplicates df))
    as (out & Hout & Hrows & Hcols).
  { apply Forall_forall. intros r Hr. apply drop_duplicates_In in Hr.
    rewrite Forall_forall in Hp. apply Hp. exact Hr. }
  exists out. split; [exact Hout |]. split; [exact Hrows |].
  intros Hor.
  assert (E : columns out = columns (drop_duplicates df)).
  { rewrite Hcols. destruct (index_of "price" (columns df)) as [j |] eqn:Hj;
      [| reflexivity].
    destruct (rows (drop_duplicates df)) as [| r rs] eqn:Er; [| reflexivity].
    exfalso. apply (proj1 (drop_duplicates_no_rows df)) in Er.
    destruct Hor as [Hr | Hn]; [apply Hr; exact Er |].
    apply Hn. apply index_of_In. eauto. }
  destruct out as [c rs]. simpl in Hrows, E. subst c rs. clear.
  destruct (drop_duplicates df); reflexivity.
Qed.

End CleanFacts.

(** Cleaning keeps a frame well formed, so that a cleaned frame can be
    joined. *)
Lemma clean_data_well_formed (parse : list value -> value -> option datetime)
      (df out : DataFrame) :
  well_formed df -> clean_data parse df = Ok out -> well_formed out.
Proof.
  unfold well_formed. intros W H.
  destruct (clean_data_columns parse df out H) as [Hc | (-> & _)];
    [| constructor].
  apply clean_data_Ok in H.
  destruct H as (mid & Hmid & Hrows & _). rewrite Hc.
  rewrite Forall_forall in W.
  assert (Wmid : Forall (fun r : row => List.length r = List.length (columns df)) mid).
  { apply Forall_forall. intros o Ho.
    destruct (Forall2_In_r _ _ _ _ Hmid Ho) as (k & Hk & Hko).
    apply drop_duplicates_In in Hk.
    unfold normalized_as in Hko.
    destruct (index_of "timestamp" (columns df)).
    - destruct Hko as (t & _ & ->). rewrite set_nth_length. apply W. exact Hk.
    - subst. apply W. exact Hk. }
  rewrite Hrows. destruct (index_of "price" (columns df)); [| exact Wmid].
  apply Forall_forall. intros o Ho. apply filter_In in Ho.
  rewrite Forall_forall in Wmid. apply Wmid. tauto.
Qed.

(** Leaving rows out of a frame does not make duplicates. *)
Lemma no_duplicates_filter (col_names : list string) (keep : row -> bool)
      (rs : list row) :
  no_duplicates col_names rs -> no_duplicates col_names (filter keep rs).
Proof.
  unfold no_duplicates.
  induction rs as [| r rs IH]; intros Hnd; [exact Hnd |].
  cbn [map] in Hnd. apply NoDup_cons_iff in Hnd. destruct Hnd as [Hr Hnd].
  cbn [filter]. destruct (keep r); [| exact (IH Hnd)].
  cbn [map]. apply NoDup_cons; [| exact (IH Hnd)].
  intros Hin. apply Hr. apply in_map_iff in Hin.
  destruct Hin as (x & Hx & Hin). apply filter_In in Hin.
  rewrite <- Hx. apply in_map. tauto.
Qed.

Lemma cell_in_range (i : nat) (r : row) (v : value) :
  cell i r = v -> v <> VNone -> (i < List.length r)%nat.
Proof.
  unfold cell. intros H Hv.
  destruct (Nat.lt_ge_cases i (List.length r)) as [Hlt | Hge]; [exact Hlt |].
  rewrite nth_overflow in H by exact Hge. congruence.
Qed.

Lemma drop_dups_snoc (alike : bool) (rs : list row) (r : row) :
  drop_dups alike [] (rs ++ [r])
  = drop_dups alike [] rs
    ++ (if existsb (fun r' => same_row alike r' r) rs then [] else [r]).
Proof.
  rewrite drop_dups_app. cbn [drop_dups]. rewrite app_nil_r.
  replace (existsb (fun r' => same_row alike r' r) (rev rs))
    with (existsb (fun r' => same_row alike r' r) rs);
    [destruct (existsb _ rs); reflexivity |].
  destruct (existsb (fun r' => same_row alike r' r) (rev rs)) eqn:E.
  - apply existsb_exists in E. destruct E as (r' & Hin & Hd).
    apply existsb_exists. exists r'. split; [apply in_rev; exact Hin | exact Hd].
  - destruct (existsb (fun r' => same_row alike r' r) rs) eqn:E'; [| reflexivity].
    apply existsb_exists in E'. destruct E' as (r' & Hin & Hd).
    rewrite <- E. symmetry. apply existsb_exists. exists r'.
    split; [apply in_rev; rewrite rev_involutive; exact Hin | exact Hd].
Qed.

(** ** The cleaner *)

(** C6 (as stated, refuted): a timestamp that cannot be converted does
    not make [clean_data] fail when its row is a duplicate of an earlier
    row, because the row is dropped before the timestamps are converted.
    The boolean [True] cannot be converted, and in a column of Python
    objects it is the same cell as the integer [1], which can. *)
Lemma clean_data_skips_a_duplicate :
  In [VBool true] (rows bool_after_int)
  /\ to_datetime_scalar Iso8601.parse_datetime
       (timestamp_series bool_after_int) (VBool true) = Raise ParseError
  /\ to_datetime_scalar Iso8601.parse_datetime
       (column 0 bool_after_int) (VBool true) = Raise ParseError
  /\ clean_data Iso8601.parse_datetime bool_after_int
     = Ok {| columns := ["timestamp"];
             rows := [[VDatetime (Timestamp 1)]] |}.
Proof.
  split; [simpl; auto |]. repeat split; vm_compute; reflexivity.
Qed.

(** C6 (amended): in a frame with a [timestamp] column, a single
    timestamp that cannot be converted makes [clean_data] raise the parse
    error as soon as its row is still there after deduplication; the call
    returns no frame at all, and no row is skipped instead. A string that
    cannot be read is always fatal, since the duplicates of its row carry
    the same string. *)
Theorem clean_data_timestamp_failure_is_fatal
        (parse : list value -> value -> option datetime) (df : DataFrame)
        (i : nat) :
  index_of "timestamp" (columns df) = Some i ->
  (forall r e,
      In r (rows (drop_duplicates df)) ->
      to_datetime_scalar parse (timestamp_series df) (cell i r) = Raise e ->
      clean_data parse df = Raise ParseError)
  /\ (forall r s,
         In r (rows df) ->
         cell i r = VStr s ->
         parse (timestamp_series df) (VStr s) = None ->
         clean_data parse df = Raise ParseError).
Proof.
  intros Hi.
  assert (K : forall r e,
             In r (rows (drop_duplicates df)) ->
             to_datetime_scalar parse (timestamp_series df) (cell i r) = Raise e ->
             clean_data parse df = Raise ParseError).
  { intros r e Hr He. rewrite clean_data_steps.
    unfold timestamp_step. rewrite Hi.
    unfold timestamp_series, timestamps in He. rewrite Hi in He.
    assert (Hin : In (cell i r) (column i (drop_duplicates df))).
    { unfold column. apply in_map. exact Hr. }
    destruct (mapM_fails _ _ _ _ Hin He) as (e' & He').
    unfold to_datetime. rewrite He'. simpl.
    apply mapM_Raise in He'. destruct He' as (v & _ & Hv).
    apply to_datetime_scalar_only_ParseError in Hv. subst. reflexivity. }
  split; [exact K |].
  intros r s Hr Hs Hp.
  destruct (drop_duplicates_first df r Hr) as (r' & Hr' & _ & Hdup).
  apply same_row_iff in Hdup.
  assert (Hlen : (i < List.length r')%nat).
  { rewrite (row_key_length _ _ _ Hdup).
    apply (cell_in_range i r (VStr s) Hs). discriminate. }
  pose proof (row_key_cell _ _ _ i Hdup Hlen) as Hc.
  rewrite Hs in Hc. apply compared_by_VStr in Hc.
  apply (K r' ParseError Hr').
  rewrite Hc. simpl. rewrite Hp. reflexivity.
Qed.

Lemma clean_data_timestamp_failure_is_fatal_witness :
  clean_data Iso8601.parse_datetime bad_timestamp = Raise ParseError.
Proof.
  apply (proj2 (clean_data_timestamp_failure_is_fatal
                  Iso8601.parse_datetime bad_timestamp 1%nat eq_refl)
               [VInt 2; VStr "yesterday"] "yesterday").
  - simpl. auto.
  - reflexivity.
  - reflexivity.
Defined.

(** C4 (as stated, refuted): two frames on which [clean_data] does not
    do what the claim says. A frame without columns is empty for pandas,
    and [drop_duplicates] returns an empty frame as it is: the two rows
    of [no_columns], which are the same row, are both kept. On a frame
    with a [price] column and no row the price step selects with an
    empty series, which selects no column: the cleaned frame has no
    column left. *)
Lemma clean_data_on_empty_frames :
  (duplicates (columns no_columns) [] []
   /\ clean_data Iso8601.parse_datetime no_columns
      = Ok {| columns := []; rows := [[]; []] |})
  /\ (clean_data Iso8601.parse_datetime header_only
      = Ok {| columns := []; rows := [] |}
      /\ columns {| columns := []; rows := [] |} <> columns header_only).
Proof.
  split; split; try reflexivity. discriminate.
Qed.

(** Cells are compared by value: an integer and the float with the same
    value are duplicates, and so are the two zeros. *)
Example drop_duplicates_by_value :
  drop_duplicates int_then_float
  = {| columns := ["product_id"]; rows := [[VInt 1]] |}
  /\ drop_duplicates
       {| columns := ["a"];
          rows := [[VFloat (S754_zero false)]; [VFloat (S754_zero true)]] |}
     = {| columns := ["a"]; rows := [[VFloat (S754_zero false)]] |}.
Proof.
  split; reflexivity.
Qed.

(** C4 (amended): in a frame with at least one column, deduplication
    drops exactly the rows that are duplicates of an earlier row. Read
    from the first row to the last, a row that has a duplicate before it
    adds nothing and any other row is appended, so first occurrences are
    kept in their order. [drop_duplicates] keeps the columns, and so does
    [clean_data] as a whole on a frame that has a row or has no [price]
    column; its rows are, in order, rows of the deduplicated input (with
    the timestamp normalized). Rows [A, A, B], where [B] is no duplicate
    of [A] and both pass the other two steps, clean to [A, B]. *)
Theorem drop_duplicates_keeps_first_occurrences :
  (forall df, columns (drop_duplicates df) = columns df)
  /\ (forall cols rs r,
         cols <> [] ->
         (exists r', In r' rs /\ duplicates cols r' r) ->
         rows (drop_duplicates {| columns := cols; rows := rs ++ [r] |})
         = rows (drop_duplicates {| columns := cols; rows := rs |}))
  /\ (forall cols rs r,
         (forall r', In r' rs -> ~ duplicates cols r' r) ->
         rows (drop_duplicates {| columns := cols; rows := rs ++ [r] |})
         = rows (drop_duplicates {| columns := cols; rows := rs |}) ++ [r])
  /\ (forall df, subseq (rows (drop_duplicates df)) (rows df))
  /\ (forall parse df out,
         clean_data parse df = Ok out ->
         (rows df <> [] \/ ~ In "price" (columns df) ->
          columns out = columns df)
         /\ exists kept,
             subseq kept (rows (drop_duplicates df))
             /\ subseq kept (rows df)
             /\ Forall2 (normalized_as parse (timestamp_series df) (columns df))
                        kept (rows out))
  /\ (forall parse cols A B,
         cols <> [] ->
         ~ duplicates cols A B ->
         (forall series, normalized_as parse series cols A A) ->
         (forall series, normalized_as parse series cols B B) ->
         passes cols A -> passes cols B ->
         clean_data parse {| columns := cols; rows := [A; A; B] |}
         = Ok {| columns := cols; rows := [A; B] |}).
Proof.
  split; [apply columns_drop_duplicates |].
  split; [| split; [| split; [| split]]].
  - intros cols rs r Hc (r' & Hin & Hdup). rewrite !rows_drop_duplicates.
    cbn [columns rows]. destruct cols as [| c cols]; [contradiction |].
    rewrite drop_dups_snoc.
    replace (existsb (fun r' => same_row (missing_alike (c :: cols)) r' r) rs)
      with true; [apply app_nil_r |].
    symmetry. apply existsb_exists. exists r'. split; [exact Hin | exact Hdup].
  - intros cols rs r Hn. rewrite !rows_drop_duplicates.
    cbn [columns rows]. destruct cols as [| c cols]; [reflexivity |].
    rewrite drop_dups_snoc.
    destruct (existsb (fun r' => same_row (missing_alike (c :: cols)) r' r) rs)
      eqn:E; [| reflexivity].
    apply existsb_exists in E. destruct E as (r' & Hin & Hdup).
    exfalso. apply (Hn r' Hin). exact Hdup.
  - apply drop_duplicates_subseq.
  - intros parse df out H. split.
    + intros Hor. destruct (clean_data_columns parse df out H)
        as [E | (_ & Hr & Hp)]; [exact E |].
      destruct Hor as [Hr' | Hn]; contradiction.
    + apply clean_data_Ok in H.
      destruct H as (mid & Hmid & Hrows & _).
      destruct (index_of "price" (columns df)) as [j |].
      * destruct (Forall2_filter_subseq _ (fun r => valid_price (cell j r)) _ _ Hmid)
          as (k & Hk & HR).
        exists k. rewrite Hrows. split; [exact Hk |]. split; [| exact HR].
        eapply subseq_trans; [exact Hk | apply drop_duplicates_subseq].
      * exists (rows (drop_duplicates df)). rewrite Hrows.
        split; [apply subseq_refl |].
        split; [apply drop_duplicates_subseq | exact Hmid].
  - intros parse cols A B Hc Hne HA HB PA PB.
    destruct (clean_data_stable parse {| columns := cols; rows := [A; A; B] |})
      as (out & Hout & _ & Heq).
    + repeat constructor; assumption.
    + repeat constructor; assumption.
    + rewrite Hout, Heq by (left; discriminate). f_equal.
      destruct cols as [| c cols]; [contradiction |].
      unfold duplicates in Hne.
      unfold drop_duplicates, frame_empty. cbn [columns rows]. f_equal.
      set (alike := missing_alike (c :: cols)) in *. clearbody alike.
      cbn [drop_dups existsb]. rewrite same_row_refl.
      destruct (same_row alike A B); [contradiction | reflexivity].
Qed.

Lemma drop_duplicates_keeps_first_occurrences_witness :
  clean_data Iso8601.parse_datetime duplicated_rows
  = Ok {| columns := ["product_id"; "price"];
          rows := [ [VInt 1; VInt 10]; [VInt 2; VInt 10] ] |}.
Proof.
  apply (proj2 (proj2 (proj2 (proj2 (proj2
           drop_duplicates_keeps_first_occurrences))))
           Iso8601.parse_datetime ["product_id"; "price"]
           [VInt 1; VInt 10] [VInt 2; VInt 10]).
  - discriminate.
  - discriminate.
  - intros series. reflexivity.
  - intros series. reflexivity.
  - reflexivity.
  - reflexivity.
Defined.

(** C3 (as stated, refuted): cleaning twice can remove a row that the
    first cleaning kept. Two rows that write one instant in two ways are
    different rows for the first deduplication, become the same row when
    the timestamps are normalized, and the second deduplication drops
    one of them. *)
Lemma clean_data_twice_removes_a_row :
  let instant := VDatetime (Timestamp 1577836800000000000) in
  let once :=
    {| columns := ["product_id"; "timestamp"; "price"];
       rows := [ [VInt 1; instant; VInt 5]; [VInt 1; instant; VInt 5] ] |} in
  let twice :=
    {| columns := ["product_id"; "timestamp"; "price"];
       rows := [ [VInt 1; instant; VInt 5] ] |} in
  clean_data Iso8601.parse_datetime same_instant_twice = Ok once
  /\ clean_data Iso8601.parse_datetime once = Ok twice
  /\ rows twice <> rows once.
Proof.
  split; [vm_compute; reflexivity |].
  split; [vm_compute; reflexivity |].
  discriminate.
Qed.

(** C3 (amended): on the result of a successful cleaning, a second
    cleaning succeeds and removes no row but the duplicates: the
    timestamps are already date-times and every price has already passed
    the filter. It removes no row at all when no two rows of the cleaned
    frame are duplicates of one another, which is the case whenever the
    frame has no [timestamp] column. The second result is the first
    without its duplicates, labels included, if the first has a row or
    has no [price] column. *)
Theorem clean_data_twice (parse : list value -> value -> option datetime)
        (df out : DataFrame) :
  clean_data parse df = Ok out ->
  exists again,
    clean_data parse out = Ok again
    /\ rows again = rows (drop_duplicates out)
    /\ (rows out <> [] \/ ~ In "price" (columns out) ->
        again = drop_duplicates out)
    /\ (no_duplicates (columns out) (rows out) -> rows again = rows out)
    /\ (index_of "timestamp" (columns df) = None -> rows again = rows out).
Proof.
  intros H.
  destruct (clean_data_columns parse df out H) as [Hc | (-> & _)].
  - destruct (clean_data_rows parse df out H) as [Hst Hps].
    rewrite <- Hc in Hst, Hps.
    destruct (clean_data_stable parse out Hst Hps) as (again & Hagain & Hrows & Heq).
    exists again. split; [exact Hagain |]. split; [exact Hrows |].
    split; [exact Heq |].
    assert (Hnd : no_duplicates (columns out) (rows out) ->
                  rows again = rows out).
    { intros Hnd. rewrite Hrows, drop_duplicates_id by exact Hnd. reflexivity. }
    split; [exact Hnd |].
    intros Hts.
    destruct (columns out) as [| c cols] eqn:Ec.
    { rewrite Hrows, rows_drop_duplicates, Ec. reflexivity. }
    apply Hnd.
    apply clean_data_Ok in H. destruct H as (mid & Hmid & Hr & _).
    unfold normalized_as in Hmid. rewrite Hts in Hmid.
    apply Forall2_eq in Hmid. subst mid.
    assert (Hdd : no_duplicates (columns df) (rows (drop_duplicates df))).
    { apply drop_duplicates_no_duplicates. rewrite <- Hc. discriminate. }
    rewrite <- Hc in Hdd. rewrite Hr.
    destruct (index_of "price" (columns df)); [| exact Hdd].
    apply no_duplicates_filter. exact Hdd.
  - exists {| columns := []; rows := [] |}.
    split; [reflexivity |]. split; [reflexivity |]. split; [reflexivity |].
    split; reflexivity.
Qed.

Lemma clean_data_twice_witness :
  exists again,
    clean_data Iso8601.parse_datetime
      {| columns := ["product_id"; "price"];
         rows := [ [VInt 1; VInt 10]; [VInt 2; VInt 10] ] |} = Ok again
    /\ rows again = [ [VInt 1; VInt 10]; [VInt 2; VInt 10] ].
Proof.
  destruct (clean_data_twice Iso8601.parse_datetime duplicated_rows
              {| columns := ["product_id"; "price"];
                 rows := [ [VInt 1; VInt 10]; [VInt 2; VInt 10] ] |}
              eq_refl) as (again & Hagain & Hrows & _).
  exists again. split; [exact Hagain | exact Hrows].
Defined.

(** C5 (the code departs from the claim): a row whose price is [None] is
    not dropped in silence. On prices ["10"], ["abc"] and [None],
    [is_valid_value] raises [TypeError] at the third and the whole call
    fails. *)
Theorem clean_data_none_price_raises
        (parse : list value -> value -> option datetime) :
  clean_data parse price_with_none = Raise TypeError.
Proof.
  reflexivity.
Qed.

(** The price filter on prices that [float] accepts or refuses with
    [ValueError]: rows [10, -5, "x"] clean to [10]. *)
Example clean_data_price_example
        (parse : list value -> value -> option datetime) :
  clean_data parse price_example
  = Ok {| columns := ["price"]; rows := [[VInt 10]] |}.
Proof.
  reflexivity.
Qed.

(** When the call succeeds, the rows that remain are those of the
    deduplicated and normalized frame whose price is valid. *)
Lemma clean_data_price_filter (parse : list value -> value -> option datetime)
      (df out : DataFrame) (j : nat) :
  index_of "price" (columns df) = Some j ->
  clean_data parse df = Ok out ->
  exists mid,
    Forall2 (normalized_as parse (timestamp_series df) (columns df))
            (rows (drop_duplicates df)) mid
    /\ rows out = filter (fun r => valid_price (cell j r)) mid.
Proof.
  intros Hj H. apply clean_data_Ok in H.
  destruct H as (mid & Hmid & Hrows & _). rewrite Hj in Hrows. eauto.
Qed.

(** C10: an infinite price counts as valid. [float("inf")] is the
    positive infinity, which is greater than zero, so [is_valid_value]
    returns [True] on the string ["inf"] and on the float infinity, and a
    row with such a price is still there after a successful cleaning: the
    row itself or, if it is a duplicate of an earlier row, that row, with
    the same price. *)
Theorem infinite_price_is_valid :
  PyFloat.of_string "inf" = Some (S754_infinity false)
  /\ is_valid_value (VStr "inf") = Ok true
  /\ is_valid_value (VFloat PyFloat.inf) = Ok true
  /\ (forall parse df out j r,
         clean_data parse df = Ok out ->
         index_of "price" (columns df) = Some j ->
         In r (rows df) ->
         cell j r = VStr "inf" \/ cell j r = VFloat PyFloat.inf ->
         exists k o,
           In k (rows df)
           /\ duplicates (columns df) k r
           /\ In o (rows out)
           /\ normalized_as parse (timestamp_series df) (columns df) k o
           /\ cell j o = cell j r).
Proof.
  split; [reflexivity |]. split; [reflexivity |]. split; [reflexivity |].
  intros parse df out j r H Hj Hr Hinf.
  destruct (clean_data_price_filter parse df out j Hj H) as (mid & Hmid & Hrows).
  destruct (drop_duplicates_first df r Hr) as (k & Hd & Hk & Hdup).
  destruct (Forall2_In_l _ _ _ _ Hmid Hd) as (o & Ho & Hko).
  assert (Hkr : cell j k = cell j r).
  { pose proof Hdup as Hkey. apply same_row_iff in Hkey.
    assert (Hlen : (j < List.length k)%nat).
    { rewrite (row_key_length _ _ _ Hkey).
      destruct Hinf as [E | E]; apply (cell_in_range j r _ E); discriminate. }
    pose proof (row_key_cell _ _ _ j Hkey Hlen) as Hc.
    destruct Hinf as [E | E]; rewrite E in Hc |- *.
    - apply compared_by_VStr in Hc. exact Hc.
    - apply compared_by_inf in Hc. exact Hc. }
  assert (Hcell : cell j o = cell j k).
  { unfold normalized_as in Hko.
    destruct (index_of "timestamp" (columns df)) as [i |] eqn:Hi.
    - destruct Hko as (t & _ & ->). apply cell_set_nth_other.
      intros ->. apply index_of_nth_error in Hi, Hj. congruence.
    - subst. reflexivity. }
  exists k, o. split; [exact Hk |]. split; [exact Hdup |].
  split; [| split; [exact Hko | congruence]].
  rewrite Hrows. apply filter_In. split; [exact Ho |].
  rewrite Hcell, Hkr. destruct Hinf as [-> | ->]; reflexivity.
Qed.

Lemma infinite_price_is_valid_witness :
  exists k o,
    In k (rows price_inf)
    /\ duplicates (columns price_inf) k [VInt 1; VStr "inf"]
    /\ In o [[VInt 1; VStr "inf"]]
    /\ normalized_as Iso8601.parse_datetime (timestamp_series price_inf)
                     ["product_id"; "price"] k o
    /\ cell 1 o = cell 1 [VInt 1; VStr "inf"].
Proof.
  apply (proj2 (proj2 (proj2 infinite_price_is_valid))
           Iso8601.parse_datetime price_inf
           {| columns := ["product_id"; "price"];
              rows := [[VInt 1; VStr "inf"]] |}
           1%nat [VInt 1; VStr "inf"]).
  - reflexivity.
  - reflexivity.
  - simpl. auto.
  - left. reflexivity.
Defined.

(** ** The inner join *)

Lemma ends_with_append (suffix c : string) :
  ends_with suffix (c ++ suffix)%string = true.
Proof.
  induction c as [| a c IH]; simpl.
  - destruct suffix; simpl; [reflexivity |].
    rewrite Ascii.eqb_refl, String.eqb_refl. reflexivity.
  - rewrite IH. apply orb_true_r.
Qed.

Lemma suffix_x_neq (others : list string) (c name : string) :
  ends_with "_x" name = false -> suffix_x others c = name ->
  c = name /\ has_label c others = false.
Proof.
  unfold suffix_x. intros Hn. destruct (has_label c others).
  - intros <-. rewrite ends_with_append in Hn. discriminate.
  - auto.
Qed.

Lemma suffix_y_neq (others : list string) (c name : string) :
  ends_with "_y" name = false -> suffix_y others c = name ->
  c = name /\ has_label c others = false.
Proof.
  unfold suffix_y. intros Hn. destruct (has_label c others).
  - intros <-. rewrite ends_with_append in Hn. discriminate.
  - auto.
Qed.

Lemma has_label_In (c : string) (cols : list string) :
  has_label c cols = true <-> In c cols.
Proof.
  unfold has_label. rewrite existsb_exists. split.
  - intros (x & Hx & E). apply String.eqb_eq in E. subst. exact Hx.
  - intros H. exists c. split; [exact H | apply String.eqb_refl].
Qed.

Lemma index_of_app_l (name : string) (l l' : list string) (i : nat) :
  index_of name l = Some i -> index_of name (l ++ l') = Some i.
Proof.
  revert i. induction l as [| c l IH]; intros i; simpl; [discriminate |].
  destruct (String.eqb name c); [auto |].
  destruct (index_of name l) as [k |]; simpl; [| discriminate].
  rewrite (IH k eq_refl). auto.
Qed.

Lemma index_of_map (f : string -> string) (name : string) (cols : list string) :
  f name = name ->
  (forall c, In c cols -> f c = name -> c = name) ->
  index_of name (map f cols) = index_of name cols.
Proof.
  intros Hf. induction cols as [| c cols IH]; intros H; simpl; [reflexivity |].
  rewrite IH by (intros c' Hc'; apply H; right; exact Hc').
  destruct (String.eqb name c) eqn:E.
  - apply String.eqb_eq in E. subst c. rewrite Hf, String.eqb_refl. reflexivity.
  - destruct (String.eqb name (f c)) eqn:E'; [| reflexivity].
    apply String.eqb_eq in E'. symmetry in E'.
    apply H in E'; [| left; reflexivity]. subst c.
    rewrite String.eqb_refl in E. discriminate.
Qed.

Lemma nth_error_remove_nth {A : Type} (j q : nat) (l : list A) (a : A) :
  q <> j -> nth_error l q = Some a ->
  nth_error (remove_nth j l) (if (q <? j)%nat then q else Nat.pred q) = Some a.
Proof.
  unfold remove_nth. revert j q. induction l as [| x l IH]; intros j q Hne H.
  - destruct q; discriminate.
  - destruct j as [| j], q as [| q]; try congruence.
    + exact H.
    + exact H.
    + assert (Hne' : q <> j) by congruence.
      specialize (IH j q Hne' H).
      change (S q <? S j)%nat with (q <? j)%nat.
      change (firstn (S j) (x :: l) ++ skipn (S (S j)) (x :: l))
        with (x :: (firstn j l ++ skipn (S j) l)).
      destruct (q <? j)%nat eqn:E.
      * exact IH.
      * apply Nat.ltb_ge in E. destruct q as [| q]; [lia |]. exact IH.
Qed.

(** The cell at position [q] of a row, once the cell at [j] is removed. *)
Lemma cell_remove_nth (j q : nat) (r : row) :
  q <> j -> (q < List.length r)%nat ->
  cell (if (q <? j)%nat then q else Nat.pred q) (remove_nth j r) = cell q r.
Proof.
  intros Hne Hlt. unfold cell.
  apply nth_error_nth. apply nth_error_remove_nth; [exact Hne |].
  apply nth_error_nth'. exact Hlt.
Qed.

Lemma cell_app_l (i : nat) (r rest : row) :
  (i < List.length r)%nat -> cell i (r ++ rest) = cell i r.
Proof.
  intros H. unfold cell. apply app_nth1. exact H.
Qed.

Lemma index_of_lt (name : string) (cols : list string) (i : nat) :
  index_of name cols = Some i -> (i < List.length cols)%nat.
Proof.
  intros H. apply index_of_nth_error in H.
  apply nth_error_Some. congruence.
Qed.

Lemma lookup_at (df : DataFrame) (name : string) (i : nat) (r : row) :
  index_of name (columns df) = Some i -> lookup df name r = Some (cell i r).
Proof.
  unfold lookup. intros ->. reflexivity.
Qed.

Lemma index_of_app_r (name : string) (l l' : list string) (k : nat) :
  ~ In name l -> index_of name l' = Some k ->
  index_of name (l ++ l') = Some (List.length l + k)%nat.
Proof.
  induction l as [| c l IH]; simpl; intros Hn H; [exact H |].
  destruct (String.eqb name c) eqn:E.
  - apply String.eqb_eq in E. subst. tauto.
  - rewrite IH; [reflexivity | tauto | exact H].
Qed.

Lemma index_of_remove_nth (name : string) (cols : list string) (q j : nat) :
  index_of name cols = Some q -> q <> j ->
  index_of name (remove_nth j cols)
  = Some (if (q <? j)%nat then q else Nat.pred q).
Proof.
  unfold remove_nth. revert q j.
  induction cols as [| c cols IH]; intros q j H Hne; [discriminate |].
  cbn [index_of] in H.
  destruct (String.eqb name c) eqn:E.
  - injection H as <-. destruct j as [| j]; [congruence |].
    change (firstn (S j) (c :: cols) ++ skipn (S (S j)) (c :: cols))
      with (c :: (firstn j cols ++ skipn (S j) cols)).
    cbn [index_of]. rewrite E. reflexivity.
  - destruct (index_of name cols) as [k |] eqn:Ek; [| discriminate].
    simpl in H. injection H as <-.
    destruct j as [| j].
    + exact Ek.
    + change (firstn (S j) (c :: cols) ++ skipn (S (S j)) (c :: cols))
        with (c :: (firstn j cols ++ skipn (S j) cols)).
      cbn [index_of]. rewrite E.
      rewrite (IH k j eq_refl) by congruence.
      change (S k <? S j)%nat with (k <? j)%nat.
      destruct (k <? j)%nat eqn:Elt; simpl; [reflexivity |].
      apply Nat.ltb_ge in Elt. destruct k as [| k]; [lia | reflexivity].
Qed.

(** A label that stands for one column only is not among the other
    columns. *)
Lemma not_ambiguous (on : string) (cols : list string) (j : nat) :
  index_of on cols = Some j -> ambiguous on cols = false ->
  ~ In on (remove_nth j cols).
Proof.
  unfold ambiguous, remove_nth. revert j.
  induction cols as [| c cols IH]; intros j; simpl; [discriminate |].
  destruct (String.eqb on c) eqn:E.
  - intros H. injection H as <-. simpl. intros Hlen Hin.
    apply Nat.ltb_ge in Hlen.
    assert (Hf : In on (filter (String.eqb on) cols)).
    { apply filter_In. split; [exact Hin | apply String.eqb_refl]. }
    destruct (filter (String.eqb on) cols); [contradiction | simpl in Hlen; lia].
  - destruct (index_of on cols) as [k |] eqn:Ek; simpl; [| discriminate].
    intros H. injection H as <-. intros Hlen. simpl.
    intros [-> | Hin]; [rewrite String.eqb_refl in E; discriminate |].
    exact (IH k eq_refl Hlen Hin).
Qed.

(** Without a clash, a label that occurs for the first time does not
    get a name that is already taken. *)
Lemma suffix_clash_fresh (f : string -> string) (c : string)
      (cols seen seen' : list string) :
  suffix_clash seen seen' cols (map f cols) = false ->
  ~ In c seen -> In c cols -> ~ In (f c) seen'.
Proof.
  revert seen seen'. induction cols as [| c0 cols IH]; intros seen seen';
    simpl; [contradiction |].
  intros H Hn Hin. apply orb_false_iff in H. destruct H as [H0 H].
  destruct (string_dec c c0) as [-> | Hne].
  - intros Hf. apply has_label_In in Hf. rewrite Hf in H0. simpl in H0.
    apply negb_false_iff in H0. apply has_label_In in H0. contradiction.
  - destruct Hin as [-> | Hin]; [congruence |].
    specialize (IH (c0 :: seen) (f c0 :: seen') H).
    intros Hf. apply IH; simpl; [intros [-> | K]; [congruence | contradiction]
                                | exact Hin | right; exact Hf].
Qed.

(** Without a clash, the first column with a label is also the first
    column with the name the label gets. *)
Lemma suffix_clash_index (f : string -> string) (c : string) (p : nat)
      (cols seen seen' : list string) :
  suffix_clash seen seen' cols (map f cols) = false ->
  ~ In c seen -> index_of c cols = Some p ->
  index_of (f c) (map f cols) = Some p.
Proof.
  revert p seen seen'. induction cols as [| c0 cols IH]; intros p seen seen';
    simpl; [discriminate |].
  intros H Hn. apply orb_false_iff in H. destruct H as [H0 H].
  destruct (String.eqb c c0) eqn:E.
  - apply String.eqb_eq in E. subst c0. rewrite String.eqb_refl. auto.
  - apply String.eqb_neq in E.
    destruct (index_of c cols) as [k |] eqn:Ek; simpl; [| discriminate].
    intros Hp. injection Hp as <-.
    assert (Hfresh : ~ In (f c) (f c0 :: seen')).
    { apply (suffix_clash_fresh f c cols (c0 :: seen) (f c0 :: seen') H).
      - simpl. intros [-> | K]; [congruence | contradiction].
      - apply index_of_In. eauto. }
    destruct (String.eqb (f c) (f c0)) eqn:E'.
    + apply String.eqb_eq in E'. exfalso. apply Hfresh. left. auto.
    + rewrite (IH k (c0 :: seen) (f c0 :: seen') H); [reflexivity | | reflexivity].
      simpl. intros [-> | K]; [congruence | contradiction].
Qed.

Lemma joined_with_In (i j : nat) (right_rows : list row) (l o : row) :
  In o (joined_with i j right_rows l) <->
  exists c, In c right_rows /\ same_value true (cell i l) (cell j c) = true
            /\ o = l ++ remove_nth j c.
Proof.
  unfold joined_with. rewrite in_map_iff. split.
  - intros (c & <- & Hc). apply filter_In in Hc. destruct Hc as [Hc E]. eauto.
  - intros (c & Hc & E & ->). exists c. split; [reflexivity |].
    apply filter_In. split; [exact Hc | exact E].
Qed.

Lemma matching_In (i j : nat) (right_rows : list row) (l c : row) :
  In c (matching i j right_rows l) <->
  In c right_rows /\ same_value true (cell i l) (cell j c) = true.
Proof.
  unfold matching. apply filter_In.
Qed.

Section MergeFacts.

Variable refuses : list value -> list value -> bool.

(** What a join that returns has gone through. *)
Lemma merge_data_Ok (txn cat out : DataFrame) (i j : nat) :
  index_of "product_id" (columns txn) = Some i ->
  index_of "product_id" (columns cat) = Some j ->
  merge_data refuses txn cat = Ok out ->
  let others := remove_nth j (columns cat) in
  columns out
  = map (suffix_x others) (columns txn) ++ map (suffix_y (columns txn)) others
  /\ rows out = flat_map (joined_with i j (rows cat)) (rows txn)
  /\ ~ In "product_id" others
  /\ suffix_clash [] [] (columns txn) (map (suffix_x others) (columns txn))
     = false
  /\ suffix_clash [] [] others (map (suffix_y (columns txn)) others) = false.
Proof.
  unfold merge_data, merge. intros Hi Hj. rewrite Hi, Hj.
  destruct (ambiguous "product_id" (columns cat)) eqn:Ac; [discriminate |].
  destruct (ambiguous "product_id" (columns txn)); [discriminate |].
  destruct (refuses (column i txn) (column j cat)); [discriminate |].
  destruct (suffix_clash [] [] (columns txn) _ || suffix_clash [] [] _ _) eqn:E;
    [discriminate |].
  apply orb_false_iff in E. destruct E as [E1 E2].
  intros H. injection H as <-. simpl.
  split; [reflexivity |]. split; [reflexivity |].
  split; [exact (not_ambiguous _ _ _ Hj Ac) |]. split; assumption.
Qed.

(** A join that returns has found the key in both frames. *)
Lemma merge_data_has_key (txn cat out : DataFrame) :
  merge_data refuses txn cat = Ok out ->
  In "product_id" (columns txn) /\ In "product_id" (columns cat).
Proof.
  unfold merge_data, merge.
  destruct (index_of "product_id" (columns cat)) as [j |] eqn:Hj; [| discriminate].
  destruct (ambiguous "product_id" (columns cat)); [discriminate |].
  destruct (index_of "product_id" (columns txn)) as [i |] eqn:Hi; [| discriminate].
  intros _. split; apply index_of_In; eauto.
Qed.

End MergeFacts.

(** The two price columns of a join: where they stand, what they are
    called and what they hold. *)
Lemma merge_price_cells (refuses : list value -> list value -> bool)
      (txn cat out : DataFrame) (i j p q : nat) :
  well_formed txn -> well_formed cat ->
  index_of "product_id" (columns txn) = Some i ->
  index_of "product_id" (columns cat) = Some j ->
  merge_data refuses txn cat = Ok out ->
  index_of "price" (columns txn) = Some p ->
  index_of "price" (columns cat) = Some q ->
  let k := (List.length (columns txn)
            + (if (q <? j)%nat then q else Nat.pred q))%nat in
  ~ In "price" (columns out)
  /\ nth_error (columns out) p = Some "price_x"
  /\ nth_error (columns out) k = Some "price_y"
  /\ index_of "price_x" (columns out) = Some p
  /\ (~ In "price_y" (columns txn) ->
      index_of "price_y" (columns out) = Some k)
  /\ forall t c,
      In t (rows txn) -> In c (rows cat) ->
      cell p (t ++ remove_nth j c) = cell p t
      /\ cell k (t ++ remove_nth j c) = cell q c.
Proof.
  intros Wt Wc Hi Hj H Hp Hq k.
  destruct (merge_data_Ok refuses txn cat out i j Hi Hj H)
    as (Hcols & Hrows & Hkey_once & Hlx & Hly).
  unfold well_formed in Wt, Wc. rewrite Forall_forall in Wt, Wc.
  pose proof (index_of_nth_error _ _ _ Hj) as Hnj.
  set (others := remove_nth j (columns cat)) in *.
  pose proof (index_of_nth_error _ _ _ Hp) as Hnp.
  pose proof (index_of_nth_error _ _ _ Hq) as Hnq.
  pose proof (index_of_lt _ _ _ Hp) as Hlp.
  pose proof (index_of_lt _ _ _ Hq) as Hlq.
  assert (Hqj : q <> j) by (intros ->; congruence).
  set (q' := if (q <? j)%nat then q else Nat.pred q) in *.
  assert (Hq' : index_of "price" others = Some q').
  { apply index_of_remove_nth; assumption. }
  pose proof (index_of_nth_error _ _ _ Hq') as Hoth.
  assert (Hin_oth : has_label "price" others = true).
  { apply has_label_In. eapply nth_error_In. exact Hoth. }
  assert (Hin_txn : has_label "price" (columns txn) = true).
  { apply has_label_In. eapply nth_error_In. exact Hnp. }
  assert (Ex : suffix_x others "price" = "price_x").
  { unfold suffix_x. rewrite Hin_oth. reflexivity. }
  assert (Ey : suffix_y (columns txn) "price" = "price_y").
  { unfold suffix_y. rewrite Hin_txn. reflexivity. }
  assert (Hx : index_of "price_x" (map (suffix_x others) (columns txn))
               = Some p).
  { rewrite <- Ex.
    apply (suffix_clash_index _ _ _ _ [] [] Hlx); [simpl; tauto | exact Hp]. }
  assert (Hy : index_of "price_y" (map (suffix_y (columns txn)) others)
               = Some q').
  { rewrite <- Ey.
    apply (suffix_clash_index _ _ _ _ [] [] Hly); [simpl; tauto | exact Hq']. }
  split; [| split; [| split; [| split; [| split]]]].
  + rewrite Hcols. intros Hin. apply in_app_or in Hin.
    destruct Hin as [Hin | Hin]; apply in_map_iff in Hin;
      destruct Hin as (c0 & Hc0 & _).
    * apply suffix_x_neq in Hc0; [| reflexivity].
      destruct Hc0 as [-> Hc0]. congruence.
    * apply suffix_y_neq in Hc0; [| reflexivity].
      destruct Hc0 as [-> Hc0]. congruence.
  + rewrite Hcols. rewrite nth_error_app1 by (rewrite length_map; exact Hlp).
    rewrite nth_error_map, Hnp. simpl. rewrite Ex. reflexivity.
  + rewrite Hcols. unfold k.
    rewrite nth_error_app2 by (rewrite length_map; lia).
    rewrite length_map.
    replace (List.length (columns txn) + q' - List.length (columns txn))%nat
      with q' by lia.
    rewrite nth_error_map, Hoth. simpl. rewrite Ey. reflexivity.
  + rewrite Hcols. apply index_of_app_l. exact Hx.
  + intros Hn. rewrite Hcols. unfold k.
    rewrite <- (length_map (suffix_x others) (columns txn)).
    apply index_of_app_r; [| exact Hy].
    intros Hin. apply in_map_iff in Hin. destruct Hin as (c0 & Hc0 & Hin).
    apply suffix_x_neq in Hc0; [| reflexivity].
    destruct Hc0 as [-> _]. contradiction.
  + intros t c Ht Hc. split.
    * apply cell_app_l. rewrite (Wt t Ht). exact Hlp.
    * unfold k. unfold cell at 1.
      rewrite app_nth2 by (rewrite (Wt t Ht); lia).
      rewrite (Wt t Ht).
      replace (List.length (columns txn) + q' - List.length (columns txn))%nat
        with q' by lia.
      apply cell_remove_nth; [exact Hqj |]. rewrite (Wc c Hc). exact Hlq.
Qed.

(** C7: the join is an inner join on the product identifier. A
    transaction contributes one row per catalog row with the same
    identifier and none when the catalog has no such row; every row of
    the result is a transaction followed by a catalog row that agree on
    the identifier, which is the [product_id] of the result; and when both
    frames have a [price] column, the result has no column named [price]
    but a column [price_x] with the price of the transaction and a column
    [price_y] with the price of the catalog row. Identifiers are the same
    when pandas takes them for the same key ([1] and [1.0], say). *)
Theorem merge_data_is_inner_join
        (refuses : list value -> list value -> bool)
        (txn cat out : DataFrame) (i j : nat) :
  well_formed txn -> well_formed cat ->
  index_of "product_id" (columns txn) = Some i ->
  index_of "product_id" (columns cat) = Some j ->
  merge_data refuses txn cat = Ok out ->
  rows out = flat_map (joined_with i j (rows cat)) (rows txn)
  /\ (forall t,
         Forall2 (fun c o => o = t ++ remove_nth j c)
                 (matching i j (rows cat) t) (joined_with i j (rows cat) t))
  /\ (forall t c,
         In c (matching i j (rows cat) t) <->
         In c (rows cat) /\ same_value true (cell i t) (cell j c) = true)
  /\ (forall t,
         In t (rows txn) ->
         (forall c, In c (rows cat) ->
                    same_value true (cell i t) (cell j c) = false) ->
         forall o, In o (rows out) -> firstn (List.length t) o <> t)
  /\ (forall o,
         In o (rows out) ->
         exists t c,
           In t (rows txn) /\ In c (rows cat) /\ o = t ++ remove_nth j c
           /\ lookup out "product_id" o = lookup txn "product_id" t
           /\ exists id,
               lookup cat "product_id" c = Some id
               /\ same_value true (cell i t) id = true)
  /\ (forall p q,
         index_of "price" (columns txn) = Some p ->
         index_of "price" (columns cat) = Some q ->
         let k := (List.length (columns txn)
                   + (if (q <? j)%nat then q else Nat.pred q))%nat in
         ~ In "price" (columns out)
         /\ nth_error (columns out) p = Some "price_x"
         /\ nth_error (columns out) k = Some "price_y"
         /\ index_of "price_x" (columns out) = Some p
         /\ (~ In "price_y" (columns txn) ->
             index_of "price_y" (columns out) = Some k)
         /\ forall t c,
             In t (rows txn) -> In c (rows cat) ->
             cell p (t ++ remove_nth j c) = cell p t
             /\ cell k (t ++ remove_nth j c) = cell q c).
Proof.
  intros Wt Wc Hi Hj H.
  destruct (merge_data_Ok refuses txn cat out i j Hi Hj H)
    as (Hcols & Hrows & Hkey_once & Hlx & Hly).
  pose proof Wt as Wt0. pose proof Wc as Wc0.
  unfold well_formed in Wt, Wc. rewrite Forall_forall in Wt, Wc.
  pose proof (index_of_nth_error _ _ _ Hj) as Hnj.
  pose proof (index_of_lt _ _ _ Hi) as Hli.
  set (others := remove_nth j (columns cat)) in *.
  assert (Hkey : index_of "product_id" (columns out) = Some i).
  { rewrite Hcols. apply index_of_app_l. rewrite index_of_map; [exact Hi | |].
    - unfold suffix_x.
      destruct (has_label "product_id" others) eqn:E; [| reflexivity].
      apply has_label_In in E. contradiction.
    - intros c _ Hc. apply suffix_x_neq in Hc; [tauto | reflexivity]. }
  split; [exact Hrows |]. split; [| split; [| split; [| split]]].
  - intros t. unfold joined_with, matching.
    induction (filter (fun r => same_value true (cell i t) (cell j r)) (rows cat));
      simpl; constructor; auto.
  - intros t c. apply matching_In.
  - intros t Ht Hno o Ho E. rewrite Hrows in Ho.
    apply in_flat_map in Ho. destruct Ho as (t' & Ht' & Ho).
    apply joined_with_In in Ho. destruct Ho as (c & Hc & Hm & ->).
    assert (t' = t).
    { rewrite <- E. rewrite (Wt t Ht), <- (Wt t' Ht').
      rewrite firstn_app, Nat.sub_diag, firstn_all. simpl.
      symmetry. apply app_nil_r. }
    subst t'. rewrite (Hno c Hc) in Hm. discriminate.
  - intros o Ho. rewrite Hrows in Ho.
    apply in_flat_map in Ho. destruct Ho as (t & Ht & Ho).
    apply joined_with_In in Ho. destruct Ho as (c & Hc & Hm & ->).
    exists t, c. split; [exact Ht |]. split; [exact Hc |].
    split; [reflexivity |].
    rewrite (lookup_at out _ i _ Hkey), (lookup_at txn _ i _ Hi),
      (lookup_at cat _ j _ Hj).
    rewrite cell_app_l by (rewrite (Wt t Ht); exact Hli).
    split; [reflexivity | eauto].
  - intros p q Hp Hq.
    exact (merge_price_cells refuses txn cat out i j p q Wt0 Wc0 Hi Hj H Hp Hq).
Qed.

Lemma merge_data_is_inner_join_witness :
  merge_data (fun _ _ => false) transactions_example catalog_example
  = Ok merged_example
  /\ rows merged_example
     = flat_map (joined_with 1 0 (rows catalog_example))
                (rows transactions_example)
  /\ ~ In "price" (columns merged_example).
Proof.
  split; [reflexivity |].
  assert (H : merge_data (fun _ _ => false) transactions_example catalog_example
              = Ok merged_example) by reflexivity.
  apply (merge_data_is_inner_join (fun _ _ => false)
           transactions_example catalog_example merged_example 1 0) in H.
  - destruct H as (Hrows & _ & _ & _ & _ & Hprice).
    split; [exact Hrows |].
    apply (Hprice 3%nat 3%nat); reflexivity.
  - repeat constructor.
  - repeat constructor.
  - reflexivity.
  - reflexivity.
Defined.

(** ** The best-sellers query *)

Import Sql.

Lemma key_eqb_eq (a b : group_key) : key_eqb a b = true <-> a = b.
Proof.
  destruct a as [x n], b as [y m]. unfold key_eqb. simpl.
  rewrite andb_true_iff, Z.eqb_eq, String.eqb_eq. split.
  - intros [-> ->]. reflexivity.
  - intros H. injection H. auto.
Qed.

Lemma key_eqb_refl (a : group_key) : key_eqb a a = true.
Proof.
  apply key_eqb_eq. reflexivity.
Qed.

Lemma key_eqb_neq (a b : group_key) : key_eqb a b = false <-> a <> b.
Proof.
  rewrite <- key_eqb_eq. destruct (key_eqb a b); split; congruence.
Qed.

Lemma group_total_add_sale (k k' : group_key) (q : Z)
      (groups : list (group_key * Z)) :
  group_total (add_sale k q groups) k'
  = if key_eqb k' k
    then Some (match group_total groups k with
               | Some s => s + q
               | None => q
               end)
    else group_total groups k'.
Proof.
  induction groups as [| [k0 s0] groups IH]; simpl.
  - destruct (key_eqb k' k); reflexivity.
  - destruct (key_eqb k k0) eqn:E; simpl.
    + apply key_eqb_eq in E. subst k0.
      destruct (key_eqb k' k); reflexivity.
    + rewrite IH. destruct (key_eqb k' k) eqn:E'; [| reflexivity].
      apply key_eqb_eq in E'. subst k'. rewrite E. reflexivity.
Qed.

Lemma add_sale_keys (k : group_key) (q : Z) (groups : list (group_key * Z)) :
  map fst (add_sale k q groups)
  = match group_total groups k with
    | Some _ => map fst groups
    | None => map fst groups ++ [k]
    end.
Proof.
  induction groups as [| [k0 s0] groups IH]; simpl; [reflexivity |].
  destruct (key_eqb k k0) eqn:E; simpl; [reflexivity |].
  rewrite IH. destruct (group_total groups k); reflexivity.
Qed.

Lemma group_total_In (groups : list (group_key * Z)) (k : group_key) (s : Z) :
  NoDup (map fst groups) ->
  (In (k, s) groups <-> group_total groups k = Some s).
Proof.
  induction groups as [| [k0 s0] groups IH]; simpl; intros Hnd.
  - split; [contradiction | discriminate].
  - inversion Hnd as [| ? ? Hn Hnd']; subst.
    destruct (key_eqb k k0) eqn:E.
    + apply key_eqb_eq in E. subst k0. split.
      * intros [H | H]; [congruence |].
        exfalso. apply Hn. apply (in_map fst) in H. exact H.
      * intros H. injection H as ->. left. reflexivity.
    + apply key_eqb_neq in E. rewrite <- (IH Hnd'). split.
      * intros [H | H]; [congruence | exact H].
      * auto.
Qed.

Lemma group_total_None (groups : list (group_key * Z)) (k : group_key) :
  group_total groups k = None <-> ~ In k (map fst groups).
Proof.
  induction groups as [| [k0 s0] groups IH]; simpl.
  - tauto.
  - destruct (key_eqb k k0) eqn:E.
    + apply key_eqb_eq in E. subst. split; [discriminate | tauto].
    + apply key_eqb_neq in E. rewrite IH. split.
      * intros H [K | K]; [congruence | tauto].
      * tauto.
Qed.

Lemma add_sale_NoDup (k : group_key) (q : Z) (groups : list (group_key * Z)) :
  NoDup (map fst groups) -> NoDup (map fst (add_sale k q groups)).
Proof.
  intros Hnd. rewrite add_sale_keys.
  destruct (group_total groups k) eqn:E; [exact Hnd |].
  apply group_total_None in E.
  apply (Permutation_NoDup (Permutation_cons_append (map fst groups) k)).
  constructor; assumption.
Qed.

Lemma total_sold_cons (k : group_key) (r : unified_transaction)
      (rows : list unified_transaction) :
  total_sold k (r :: rows)
  = if key_eqb (key_of r) k then quantity r + total_sold k rows
    else total_sold k rows.
Proof.
  unfold total_sold. simpl. destruct (key_eqb (key_of r) k); reflexivity.
Qed.

(** The groups after reading [rows], starting from the groups [acc]. *)
Lemma fold_add_sale (rows : list unified_transaction)
      (acc : list (group_key * Z)) :
  NoDup (map fst acc) ->
  let groups :=
    fold_left (fun groups r => add_sale (key_of r) (quantity r) groups) rows acc in
  NoDup (map fst groups)
  /\ forall k,
      group_total groups k
      = match group_total acc k with
        | Some s => Some (s + total_sold k rows)
        | None =>
            if existsb (fun r => key_eqb (key_of r) k) rows
            then Some (total_sold k rows)
            else None
        end.
Proof.
  revert acc. induction rows as [| r rows IH]; intros acc Hnd; simpl.
  - split; [exact Hnd |]. intros k.
    destruct (group_total acc k); [f_equal; unfold total_sold; simpl; lia | reflexivity].
  - destruct (IH (add_sale (key_of r) (quantity r) acc)
                 (add_sale_NoDup _ _ _ Hnd)) as [Hnd' Htot].
    split; [exact Hnd' |]. intros k. rewrite Htot.
    rewrite group_total_add_sale, total_sold_cons.
    destruct (key_eqb k (key_of r)) eqn:E.
    + apply key_eqb_eq in E. subst k. rewrite key_eqb_refl. simpl.
      destruct (group_total acc (key_of r)); f_equal; lia.
    + replace (key_eqb (key_of r) k) with false.
      * reflexivity.
      * symmetry. apply key_eqb_neq. apply key_eqb_neq in E. congruence.
Qed.

Lemma group_by_sum_spec (rows : list unified_transaction) :
  NoDup (map fst (group_by_sum rows))
  /\ forall k s,
      In (k, s) (group_by_sum rows) <->
      (exists r, In r rows /\ key_of r = k) /\ s = total_sold k rows.
Proof.
  destruct (fold_add_sale rows [] (NoDup_nil _)) as [Hnd Htot].
  fold (group_by_sum rows) in Hnd, Htot. simpl in Htot.
  split; [exact Hnd |]. intros k s.
  rewrite (group_total_In _ _ _ Hnd), Htot.
  destruct (existsb (fun r => key_eqb (key_of r) k) rows) eqn:E.
  - apply existsb_exists in E. destruct E as (r & Hr & E).
    apply key_eqb_eq in E. split.
    + intros H. injection H as <-. eauto.
    + intros [_ ->]. reflexivity.
  - split; [discriminate |]. intros [(r & Hr & Hk) _]. exfalso.
    assert (K : existsb (fun r => key_eqb (key_of r) k) rows = true).
    { apply existsb_exists. exists r. split; [exact Hr |].
      apply key_eqb_eq. exact Hk. }
    congruence.
Qed.

Lemma insert_desc_Permutation (tie : group_key -> group_key -> bool)
      (g : group_key * Z) (l : list (group_key * Z)) :
  Permutation (g :: l) (insert_desc tie g l).
Proof.
  induction l as [| h l IH]; simpl.
  - apply Permutation_refl.
  - destruct (snd h <? snd g); [apply Permutation_refl |].
    destruct ((snd h =? snd g) && tie (fst g) (fst h));
      [apply Permutation_refl |].
    eapply perm_trans; [apply perm_swap |].
    apply perm_skip. exact IH.
Qed.

Lemma order_by_total_desc_Permutation (tie : group_key -> group_key -> bool)
      (l : list (group_key * Z)) :
  Permutation l (order_by_total_desc tie l).
Proof.
  induction l as [| g l IH]; simpl.
  - constructor.
  - eapply perm_trans; [| apply insert_desc_Permutation].
    apply perm_skip. exact IH.
Qed.

Lemma insert_desc_descending (tie : group_key -> group_key -> bool)
      (g : group_key * Z) (l : list (group_key * Z)) :
  descending l -> descending (insert_desc tie g l).
Proof.
  unfold descending. induction l as [| h l IH]; intros Hs; simpl.
  - repeat constructor.
  - inversion Hs as [| ? ? Hs' Hall]; subst.
    assert (Hfirst : snd h <= snd g ->
                     StronglySorted (fun a b => snd b <= snd a) (g :: h :: l)).
    { intros E. constructor; [exact Hs |].
      constructor; [exact E |].
      eapply Forall_impl; [| exact Hall]. simpl. intros b Hb. lia. }
    destruct (snd h <? snd g) eqn:E.
    { apply Z.ltb_lt in E. apply Hfirst. lia. }
    destruct ((snd h =? snd g) && tie (fst g) (fst h)) eqn:E'.
    { apply andb_true_iff in E'. destruct E' as [E' _].
      apply Z.eqb_eq in E'. apply Hfirst. lia. }
    apply Z.ltb_ge in E. constructor; [apply IH; exact Hs' |].
    apply Forall_forall. intros b Hb.
    apply (Permutation_in _ (Permutation_sym (insert_desc_Permutation tie g l))) in Hb.
    destruct Hb as [<- | Hb]; [lia |].
    rewrite Forall_forall in Hall. apply Hall. exact Hb.
Qed.

Lemma order_by_total_desc_descending (tie : group_key -> group_key -> bool)
      (l : list (group_key * Z)) :
  descending (order_by_total_desc tie l).
Proof.
  induction l as [| g l IH]; simpl.
  - constructor.
  - apply insert_desc_descending. exact IH.
Qed.

Lemma descending_app (l l' : list (group_key * Z)) :
  descending (l ++ l') ->
  descending l /\ forall a b, In a l -> In b l' -> snd b <= snd a.
Proof.
  unfold descending. induction l as [| h l IH]; simpl; intros Hs.
  - split; [constructor | contradiction].
  - inversion Hs as [| ? ? Hs' Hall]; subst.
    destruct (IH Hs') as [Hl Hle]. split.
    + constructor; [exact Hl |].
      apply Forall_forall. intros b Hb. rewrite Forall_forall in Hall.
      apply Hall. apply in_or_app. left. exact Hb.
    + intros a b [<- | Ha] Hb.
      * rewrite Forall_forall in Hall. apply Hall. apply in_or_app. auto.
      * apply Hle; assumption.
Qed.


(** C9: the best-sellers report. Its rows are groups of the unified
    table: a key [(product_id, product_name)] that occurs in it, with the
    sum of the quantities of the rows with that key; each key appears at
    most once; the totals come in descending order; there are at most two
    rows, and a key of the table that is left out has a total no greater
    than those reported. This holds however the database orders groups
    with equal totals. On the rows [(1,"A",3)], [(1,"A",2)], [(2,"B",10)]
    the report is [(2,"B",10)], [(1,"A",5)]. *)
Theorem top_2_selling_spec :
  (forall (tie : group_key -> group_key -> bool)
          (rows : list unified_transaction),
      let top := top_2_selling tie rows in
      (List.length top <= 2)%nat
      /\ descending top
      /\ NoDup (map fst top)
      /\ (forall k s,
             In (k, s) top ->
             (exists r, In r rows /\ key_of r = k) /\ s = total_sold k rows)
      /\ (forall r,
             In r rows ->
             In (key_of r, total_sold (key_of r) rows) top
             \/ (List.length top = 2%nat
                 /\ forall k s, In (k, s) top -> total_sold (key_of r) rows <= s)))
  /\ (forall tie : group_key -> group_key -> bool,
         top_2_selling tie sales_example = [((2, "B"), 10); ((1, "A"), 5)]).
Proof.
  split; [| reflexivity].
  intros tie rows top.
  destruct (group_by_sum_spec rows) as [Hnd Hin].
  pose proof (order_by_total_desc_Permutation tie (group_by_sum rows)) as Hperm.
  pose proof (order_by_total_desc_descending tie (group_by_sum rows)) as Hdesc.
  set (sorted := order_by_total_desc tie (group_by_sum rows)) in *.
  assert (Hsplit : sorted = top ++ skipn 2 sorted).
  { unfold top, top_2_selling. fold sorted. symmetry. apply firstn_skipn. }
  rewrite Hsplit in Hdesc. apply descending_app in Hdesc.
  destruct Hdesc as [Hdtop Hle].
  assert (Htop_in : forall g, In g top -> In g (group_by_sum rows)).
  { intros g Hg. apply (Permutation_in _ (Permutation_sym Hperm)).
    rewrite Hsplit. apply in_or_app. left. exact Hg. }
  split; [apply firstn_le_length |]. split; [exact Hdtop |]. split; [| split].
  - assert (Hnds : NoDup (map fst sorted)).
    { eapply Permutation_NoDup; [apply Permutation_map; exact Hperm | exact Hnd]. }
    rewrite Hsplit, map_app in Hnds. apply NoDup_app_remove_r in Hnds. exact Hnds.
  - intros k s Hks. apply Hin. apply Htop_in. exact Hks.
  - intros r Hr.
    assert (Hg : In (key_of r, total_sold (key_of r) rows) sorted).
    { apply (Permutation_in _ Hperm). apply Hin. eauto. }
    rewrite Hsplit in Hg. apply in_app_or in Hg. destruct Hg as [Hg | Hg].
    + left. exact Hg.
    + right. split.
      * unfold top, top_2_selling. fold sorted. apply firstn_length_le.
        destruct sorted as [| a [| b sorted']]; simpl in Hg; try contradiction.
        simpl. lia.
      * intros k s Hks. apply (Hle (k, s) _ Hks Hg).
Qed.

(** ** The connection gate *)

Import Gate.

Lemma run_after_failure (server : nat -> result unit) (w : world) :
  server (attempts w) = Raise OperationalError ->
  eutt eq (run server w)
       (run server {| attempts := S (attempts w); sleeps := sleeps w ++ [5] |}).
Proof.
  intros Hs. unfold run, await_connection.
  rewrite unfold_iter at 1. unfold attempt at 1.
  rewrite bind_bind.
  rewrite interp_state_bind, interp_state_trigger. cbn.
  rewrite bind_ret_l. cbn. rewrite Hs.
  rewrite bind_bind.
  rewrite interp_state_bind, interp_state_trigger. cbn.
  rewrite bind_ret_l. cbn. rewrite bind_ret_l.
  rewrite interp_state_tau, tau_eutt. reflexivity.
Qed.

Lemma run_after_success (server : nat -> result unit) (w : world) :
  server (attempts w) = Ok tt ->
  eutt eq (run server w)
       (Ret ({| attempts := S (attempts w); sleeps := sleeps w |}, Ok tt)).
Proof.
  intros Hs. unfold run, await_connection.
  rewrite unfold_iter. unfold attempt at 1.
  rewrite bind_bind.
  rewrite interp_state_bind, interp_state_trigger. cbn.
  rewrite bind_ret_l. cbn. rewrite Hs.
  rewrite bind_ret_l, interp_state_ret. reflexivity.
Qed.

Lemma run_after_error (server : nat -> result unit) (w : world) (e : exn) :
  server (attempts w) = Raise e -> e <> OperationalError ->
  eutt eq (run server w)
       (Ret ({| attempts := S (attempts w); sleeps := sleeps w |}, Raise e)).
Proof.
  intros Hs He. unfold run, await_connection.
  rewrite unfold_iter. unfold attempt at 1.
  rewrite bind_bind.
  rewrite interp_state_bind, interp_state_trigger. cbn.
  rewrite bind_ret_l. cbn. rewrite Hs.
  destruct e; try congruence;
    rewrite bind_ret_l, interp_state_ret; reflexivity.
Qed.

(** A failed attempt costs at least one silent step. *)
Lemma run_after_failure_strong (server : nat -> result unit) (w : world) :
  server (attempts w) = Raise OperationalError ->
  exists t,
  eq_itree eq (run server w) (Tau t) /\
  euttge eq t (run server {| attempts := S (attempts w); sleeps := sleeps w ++ [5] |}).
Proof.
  intros Hs. unfold run, await_connection.
  eexists. split.
  - rewrite unfold_iter at 1. unfold attempt at 1.
    rewrite bind_bind.
    rewrite interp_state_bind, interp_state_trigger_eqit. cbn.
    rewrite bind_ret_l. rewrite bind_tau. reflexivity.
  - rewrite bind_ret_l. cbn. rewrite Hs.
    rewrite bind_bind.
    rewrite interp_state_bind, interp_state_trigger_eqit. cbn.
    rewrite bind_ret_l. rewrite bind_tau, tau_euttge.
    rewrite bind_ret_l. cbn. rewrite bind_ret_l.
    rewrite interp_state_tau, tau_euttge. reflexivity.
Qed.

(** Against a server that refuses every connection the gate never
    returns. *)
Lemma run_never_returns (server : nat -> result unit) :
  (forall k, server k = Raise OperationalError) ->
  forall w, eutt eq (run server w) ITree.spin.
Proof.
  intros Hfail. einit. ecofix CIH. intros w.
  destruct (run_after_failure_strong server w (Hfail _)) as (t & Ht & Hge).
  rewrite Ht. rewrite (itree_eta ITree.spin). cbn.
  etau. rewrite Hge. ebase.
Qed.

(** C8: when the first [n] attempts meet a connectivity error and the
    next one succeeds, the gate returns a connection, without an error,
    after [n + 1] attempts and exactly [n] sleeps of 5 seconds each. As
    long as the attempts fail the gate keeps trying, whatever [n] is, and
    every wait is 5 seconds: there is no bound on the number of attempts,
    and against a server that always refuses the gate never returns. An
    error of another kind leaves the loop at once. *)
Theorem await_connection_retries (server : nat -> result unit) :
  (forall n,
      (forall k, (k < n)%nat -> server k = Raise OperationalError) ->
      server n = Ok tt ->
      eutt eq (run server start)
           (Ret ({| attempts := S n; sleeps := repeat 5 n |}, Ok tt)))
  /\ (forall n,
         (forall k, (k < n)%nat -> server k = Raise OperationalError) ->
         eutt eq (run server start)
              (run server {| attempts := n; sleeps := repeat 5 n |}))
  /\ (forall n e,
         (forall k, (k < n)%nat -> server k = Raise OperationalError) ->
         server n = Raise e -> e <> OperationalError ->
         eutt eq (run server start)
              (Ret ({| attempts := S n; sleeps := repeat 5 n |}, Raise e)))
  /\ ((forall k, server k = Raise OperationalError) ->
      eutt eq (run server start) ITree.spin).
Proof.
  assert (Hprefix : forall n,
             (forall k, (k < n)%nat -> server k = Raise OperationalError) ->
             eutt eq (run server start)
                  (run server {| attempts := n; sleeps := repeat 5 n |})).
  { induction n as [| n IH]; intros Hfail.
    - reflexivity.
    - rewrite IH by (intros k Hk; apply Hfail; lia).
      rewrite run_after_failure by (simpl; apply Hfail; lia).
      simpl attempts. simpl sleeps.
      replace (repeat 5 n ++ [5]) with (repeat 5 (S n)); [reflexivity |].
      clear. induction n as [| n IH]; simpl; [reflexivity |].
      simpl in IH. rewrite <- IH. reflexivity. }
  split; [| split; [exact Hprefix | split]].
  - intros n Hfail Hok. rewrite (Hprefix n Hfail).
    apply run_after_success. exact Hok.
  - intros n e Hfail He Hne. rewrite (Hprefix n Hfail).
    apply run_after_error; assumption.
  - intros Hfail. apply run_never_returns. exact Hfail.
Qed.

Lemma await_connection_retries_witness :
  eutt eq (run fails_twice start)
       (Ret ({| attempts := 3; sleeps := [5; 5] |}, Ok tt)).
Proof.
  apply (proj1 (await_connection_retries fails_twice) 2%nat).
  - intros [| [| k]] Hk; [reflexivity | reflexivity | lia].
  - reflexivity.
Defined.

(** * Further properties *)

(** ** More on the validator *)

(** X2: On a float, [is_valid_value] never raises and is [True] exactly on
    the positive numbers, the positive infinity included; a NaN, a zero
    of either sign and a negative number give [False]. *)
Lemma is_valid_value_float (f : spec_float) :
  is_valid_value (VFloat f)
  = Ok match f with
       | S754_infinity false | S754_finite false _ _ => true
       | _ => false
       end.
Proof.
  destruct f as [s | [|] | | [|] m e]; reflexivity.
Qed.

Lemma lstrip_snoc (l : list ascii) (c : ascii) :
  PyFloat.is_space c = false ->
  exists m, PyFloat.lstrip (l ++ [c]) = m ++ [c].
Proof.
  intros Hc. induction l as [| a l IH]; simpl.
  - rewrite Hc. exists []. reflexivity.
  - destruct (PyFloat.is_space a); [exact IH |].
    exists (a :: l). reflexivity.
Qed.

Lemma strip_minus (l : list ascii) :
  exists m, PyFloat.strip ("-"%char :: l) = "-"%char :: m.
Proof.
  unfold PyFloat.strip. simpl PyFloat.lstrip.
  change (rev ("-"%char :: l)) with (rev l ++ ["-"%char]).
  destruct (lstrip_snoc (rev l) "-"%char eq_refl) as (m & ->).
  rewrite rev_app_distr. simpl. eauto.
Qed.

Lemma binary_round_aux_not_positive (mx ex : Z) (lx : location) :
  PyFloat.gt0 (binary_round_aux PyFloat.prec PyFloat.emax true mx ex lx) = false.
Proof.
  unfold binary_round_aux.
  destruct (shr_fexp PyFloat.prec PyFloat.emax mx ex lx) as [mrs' e'].
  destruct (shr_fexp PyFloat.prec PyFloat.emax
              (round_nearest_even (shr_m mrs') (loc_of_shr_record mrs')) e'
              loc_Exact) as [mrs'' e''].
  destruct (shr_m mrs'') as [| p | p]; try reflexivity.
  destruct (e'' <=? PyFloat.emax - PyFloat.prec); reflexivity.
Qed.

Lemma of_decimal_not_positive (m e : Z) :
  PyFloat.gt0 (PyFloat.of_decimal true m e) = false.
Proof.
  unfold PyFloat.of_decimal. destruct m as [| p | p]; try reflexivity.
  destruct (0 <=? e).
  - unfold binary_round.
    destruct (shl_align _ _ _) as [mz ez]. apply binary_round_aux_not_positive.
  - destruct (SFdiv_core_binary _ _ _ _ _ _) as [[mz ez] lz].
    apply binary_round_aux_not_positive.
Qed.

(** X3: A price written with a minus sign is never valid: whatever follows
    the sign, [is_valid_value] returns [False], without raising. *)
Theorem is_valid_value_minus_sign (s : string) :
  is_valid_value (VStr (String "-" s)) = Ok false.
Proof.
  unfold is_valid_value, py_float, PyFloat.of_string.
  change (list_ascii_of_string (String "-" s))
    with ("-"%char :: list_ascii_of_string s).
  destruct (strip_minus (list_ascii_of_string s)) as (m & ->).
  simpl PyFloat.remove_underscores.
  destruct (PyFloat.remove_underscores (Some "-"%char) m) as [l |];
    [| reflexivity].
  simpl option_map. cbv iota beta.
  change (PyFloat.parse_sign ("-"%char :: l)) with (true, l). cbv iota beta.
  destruct (String.eqb (PyFloat.lower l) "inf"
            || String.eqb (PyFloat.lower l) "infinity"); [reflexivity |].
  destruct (String.eqb (PyFloat.lower l) "nan"); [reflexivity |].
  destruct (PyFloat.parse_decimal l) as [[mm e] |]; [| reflexivity].
  rewrite of_decimal_not_positive. reflexivity.
Qed.

(** ** More on the cleaner *)

Lemma mapM_succeeds {A B : Type} (f : A -> result B) (l : list A) :
  (exists l', mapM f l = Ok l') <-> Forall (fun a => exists b, f a = Ok b) l.
Proof.
  split.
  - intros (l' & H). apply mapM_Ok in H.
    induction H as [| a b l l' Hab _ IH]; constructor; eauto.
  - induction 1 as [| a l (b & Hb) _ (l' & IH)]; simpl.
    + eauto.
    + rewrite Hb, IH. simpl. eauto.
Qed.

Lemma subseq_length {A : Type} (k l : list A) :
  subseq k l -> (List.length k <= List.length l)%nat.
Proof.
  induction 1; simpl; lia.
Qed.

Lemma Forall2_length_eq {A B : Type} (R : A -> B -> Prop)
      (l : list A) (l' : list B) :
  Forall2 R l l' -> List.length l = List.length l'.
Proof.
  induction 1; simpl; congruence.
Qed.

Lemma normalized_as_other_cells parse series (cols : list string) (k o : row) :
  normalized_as parse series cols k o ->
  List.length o = List.length k
  /\ forall c, index_of "timestamp" cols <> Some c -> cell c o = cell c k.
Proof.
  unfold normalized_as. destruct (index_of "timestamp" cols) as [i |].
  - intros (t & _ & ->). split; [apply set_nth_length |].
    intros c Hc. apply cell_set_nth_other. congruence.
  - intros ->. auto.
Qed.

Lemma timestamp_price_apart (cols : list string) (i j : nat) :
  index_of "timestamp" cols = Some i -> index_of "price" cols = Some j ->
  i <> j.
Proof.
  intros Hi Hj ->. apply index_of_nth_error in Hi, Hj. congruence.
Qed.

(** X4: [clean_data] returns a frame exactly when, once the duplicates
    are dropped, every timestamp that is left can be converted in the
    series of those timestamps and [is_valid_value] returns on every
    price that is left; a column that is absent asks for nothing. A
    value that only stands in rows which are duplicates of earlier rows
    asks for nothing either. *)
Theorem clean_data_succeeds_iff
        (parse : list value -> value -> option datetime) (df : DataFrame) :
  (exists out, clean_data parse df = Ok out) <->
  (forall i r,
      index_of "timestamp" (columns df) = Some i ->
      In r (rows (drop_duplicates df)) ->
      exists t,
        to_datetime_scalar parse (timestamp_series df) (cell i r) = Ok t)
  /\ (forall j r,
         index_of "price" (columns df) = Some j ->
         In r (rows (drop_duplicates df)) ->
         exists b, is_valid_value (cell j r) = Ok b).
Proof.
  rewrite clean_data_steps. split.
  - intros (out & H). apply rbind_Ok in H. destruct H as (mid & Hmid & Hout).
    pose proof (timestamp_step_Ok parse _ _ _ Hmid) as [_ Hrows].
    fold (timestamp_series df) in Hrows. split.
    + intros i r Hi Hd.
      destruct (Forall2_In_l _ _ _ _ Hrows Hd) as (o & _ & Ho).
      unfold normalized_as in Ho. rewrite Hi in Ho.
      destruct Ho as (t & Ht & _). eauto.
    + intros j r Hj Hd.
      destruct (Forall2_In_l _ _ _ _ Hrows Hd) as (o & Ho & Hro).
      unfold price_step in Hout. rewrite Hj in Hout.
      apply rbind_Ok in Hout. destruct Hout as (mask & Hmask & _).
      assert (Hex : exists mask', mapM is_valid_value (column j mid) = Ok mask')
        by eauto.
      apply mapM_succeeds in Hex. rewrite Forall_forall in Hex.
      destruct (Hex (cell j o)) as (b & Hb).
      { unfold column. apply in_map. exact Ho. }
      exists b. rewrite <- Hb. f_equal. symmetry.
      apply (normalized_as_other_cells _ _ _ _ _ Hro).
      intros Hi. exact (timestamp_price_apart _ _ _ Hi Hj eq_refl).
  - intros [Hts Hprice].
    assert (Hmid : exists mid,
               timestamp_step parse (columns df) (drop_duplicates df) = Ok mid).
    { unfold timestamp_step.
      destruct (index_of "timestamp" (columns df)) as [i |] eqn:Hi; [| eauto].
      assert (Hex : exists ts,
                 to_datetime parse (column i (drop_duplicates df)) = Ok ts).
      { apply mapM_succeeds. apply Forall_forall. intros v Hv.
        unfold column in Hv. apply in_map_iff in Hv.
        destruct Hv as (r & <- & Hr).
        destruct (Hts i r eq_refl Hr) as (t & Ht).
        unfold timestamp_series, timestamps in Ht. rewrite Hi in Ht. eauto. }
      destruct Hex as (ts & ->). simpl. eauto. }
    destruct Hmid as (mid & Hmid). rewrite Hmid. simpl.
    pose proof (timestamp_step_Ok parse _ _ _ Hmid) as [_ Hrows].
    unfold price_step.
    destruct (index_of "price" (columns df)) as [j |] eqn:Hj; [| eauto].
    assert (Hex : exists mask,
               series_apply is_valid_value (column j mid) = Ok mask).
    { apply mapM_succeeds. apply Forall_forall. intros v Hv.
      unfold column in Hv. apply in_map_iff in Hv.
      destruct Hv as (o & <- & Ho).
      destruct (Forall2_In_r _ _ _ _ Hrows Ho) as (k & Hk & Hko).
      destruct (Hprice j k eq_refl Hk) as (b & Hb).
      exists b. rewrite <- Hb. f_equal.
      apply (normalized_as_other_cells _ _ _ _ _ Hko).
      intros Hi. exact (timestamp_price_apart _ _ _ Hi Hj eq_refl). }
    destruct Hex as (mask & ->). simpl. eauto.
Qed.

(** X5: In a cleaned frame every timestamp is a date-time (a [Timestamp] or
    [NaT]) and every price is valid. *)
Theorem clean_data_invariant (parse : list value -> value -> option datetime)
        (df out : DataFrame) :
  well_formed df ->
  clean_data parse df = Ok out ->
  forall r, In r (rows out) ->
    (forall i, index_of "timestamp" (columns out) = Some i ->
               exists d, cell i r = VDatetime d)
    /\ (forall j, index_of "price" (columns out) = Some j ->
                  is_valid_value (cell j r) = Ok true).
Proof.
  intros W H r Hr.
  destruct (clean_data_columns parse df out H) as [Hc | (-> & _)];
    [| contradiction].
  destruct (clean_data_Ok parse df out H) as (mid & Hmid & Hrows & _).
  rewrite Hc.
  assert (Hrmid : In r mid /\ passes (columns df) r).
  { unfold passes. rewrite Hrows in Hr.
    destruct (index_of "price" (columns df)).
    - apply filter_In in Hr. rewrite <- valid_price_true. exact Hr.
    - auto. }
  destruct Hrmid as [Hrmid Hpass]. split.
  - intros i Hi.
    destruct (Forall2_In_r _ _ _ _ Hmid Hrmid) as (k & Hk & Hko).
    unfold normalized_as in Hko. rewrite Hi in Hko.
    destruct Hko as (t & Ht & ->).
    apply drop_duplicates_In in Hk.
    unfold well_formed in W. rewrite Forall_forall in W.
    rewrite cell_set_nth_same
      by (rewrite (W k Hk); eapply index_of_lt; exact Hi).
    eapply to_datetime_scalar_datetime. exact Ht.
  - intros j Hj. unfold passes in Hpass. rewrite Hj in Hpass. exact Hpass.
Qed.

Lemma clean_data_invariant_witness :
  (exists d,
      cell 1 [VInt 1; VDatetime (Timestamp 1577836800000000000); VInt 5]
      = VDatetime d)
  /\ is_valid_value
       (cell 2 [VInt 1; VDatetime (Timestamp 1577836800000000000); VInt 5])
     = Ok true.
Proof.
  destruct (clean_data_invariant Iso8601.parse_datetime same_instant_twice
              {| columns := ["product_id"; "timestamp"; "price"];
                 rows := [ [VInt 1; VDatetime (Timestamp 1577836800000000000); VInt 5];
                           [VInt 1; VDatetime (Timestamp 1577836800000000000); VInt 5] ] |})
    with (r := [VInt 1; VDatetime (Timestamp 1577836800000000000); VInt 5])
    as [Hts Hprice].
  - repeat constructor.
  - vm_compute. reflexivity.
  - left. reflexivity.
  - split; [apply Hts; reflexivity | apply Hprice; reflexivity].
Defined.

(** X6: [clean_data] never adds a row, and it changes nothing but the
    timestamp: every row of the result is a row of the input with the
    same number of cells and the same cell in every other column, so a
    price is kept as it was written, text included. *)
Theorem clean_data_keeps_other_cells
        (parse : list value -> value -> option datetime)
        (df out : DataFrame) :
  clean_data parse df = Ok out ->
  (List.length (rows out) <= List.length (rows df))%nat
  /\ forall o, In o (rows out) ->
       exists k,
         In k (rows df)
         /\ List.length o = List.length k
         /\ forall c, index_of "timestamp" (columns df) <> Some c ->
                      cell c o = cell c k.
Proof.
  intros H.
  destruct (clean_data_Ok parse df out H) as (mid & Hmid & Hrows & _).
  assert (Hsub : forall o, In o (rows out) -> In o mid).
  { intros o. rewrite Hrows. destruct (index_of "price" (columns df)); [| auto].
    intros Ho. apply filter_In in Ho. tauto. }
  split.
  - apply Nat.le_trans with (List.length mid).
    + rewrite Hrows. destruct (index_of "price" (columns df)); [| lia].
      apply filter_length_le.
    + rewrite <- (Forall2_length_eq _ _ _ Hmid).
      apply subseq_length. apply drop_duplicates_subseq.
  - intros o Ho. apply Hsub in Ho.
    destruct (Forall2_In_r _ _ _ _ Hmid Ho) as (k & Hk & Hko).
    apply drop_duplicates_In in Hk. exists k. split; [exact Hk |].
    eapply normalized_as_other_cells. exact Hko.
Qed.

Lemma clean_data_keeps_other_cells_witness :
  (List.length [[VInt 10]] <= List.length (rows price_example))%nat
  /\ forall o, In o [[VInt 10]] ->
       exists k,
         In k (rows price_example)
         /\ List.length o = List.length k
         /\ forall c, index_of "timestamp" (columns price_example) <> Some c ->
                      cell c o = cell c k.
Proof.
  apply (clean_data_keeps_other_cells Iso8601.parse_datetime price_example
           {| columns := ["price"]; rows := [[VInt 10]] |}).
  reflexivity.
Defined.



(** X8: Deduplication is idempotent, and [clean_data] does not see the
    duplicates of its input: cleaning a frame and cleaning the
    deduplicated frame give the same result, an exception included. *)
Theorem clean_data_absorbs_duplicates
        (parse : list value -> value -> option datetime) (df : DataFrame) :
  drop_duplicates (drop_duplicates df) = drop_duplicates df
  /\ clean_data parse (drop_duplicates df) = clean_data parse df.
Proof.
  split; [apply drop_duplicates_idempotent |].
  rewrite !clean_data_steps.
  rewrite columns_drop_duplicates, drop_duplicates_idempotent. reflexivity.
Qed.

(** ** More on the inner join *)

Lemma remove_nth_length {A : Type} (j : nat) (l : list A) :
  (j < List.length l)%nat ->
  List.length (remove_nth j l) = Nat.pred (List.length l).
Proof.
  unfold remove_nth. intros H.
  rewrite length_app, firstn_length_le, length_skipn by lia. lia.
Qed.

(** X10: The joined frame is well formed when the two frames are, and it has
    one column less than the two frames together: the key is kept
    once. *)
Theorem merge_data_shape (refuses : list value -> list value -> bool)
        (txn cat out : DataFrame) :
  well_formed txn -> well_formed cat ->
  merge_data refuses txn cat = Ok out ->
  well_formed out
  /\ List.length (columns out)
     = Nat.pred (List.length (columns txn) + List.length (columns cat)).
Proof.
  intros Wt Wc H.
  destruct (merge_data_has_key refuses txn cat out H) as [Ht Hc].
  apply index_of_In in Ht, Hc. destruct Ht as (i & Hi), Hc as (j & Hj).
  destruct (merge_data_Ok refuses txn cat out i j Hi Hj H) as (Hcols & Hrows & _).
  pose proof (index_of_lt _ _ _ Hj) as Hlj.
  pose proof (index_of_lt _ _ _ Hi) as Hli.
  assert (Hlen : List.length (columns out)
                 = Nat.pred (List.length (columns txn) + List.length (columns cat))).
  { rewrite Hcols, length_app, !length_map, remove_nth_length by exact Hlj. lia. }
  split; [| exact Hlen].
  unfold well_formed in *. rewrite Forall_forall in *.
  intros o Ho. rewrite Hrows in Ho. apply in_flat_map in Ho.
  destruct Ho as (t & Ht & Ho). apply joined_with_In in Ho.
  destruct Ho as (c & Hc & _ & ->).
  rewrite Hlen, length_app, (Wt t Ht),
    remove_nth_length by (rewrite (Wc c Hc); exact Hlj).
  rewrite (Wc c Hc). lia.
Qed.

Lemma merge_data_shape_witness :
  well_formed merged_example
  /\ List.length (columns merged_example)
     = Nat.pred (List.length (columns transactions_example)
                 + List.length (columns catalog_example)).
Proof.
  apply (merge_data_shape (fun _ _ => false)
           transactions_example catalog_example merged_example).
  - repeat constructor.
  - repeat constructor.
  - reflexivity.
Defined.

Lemma matching_unique (i j : nat) (right_rows : list row) (l : row) :
  NoDup (map (compared_by true) (map (cell j) right_rows)) ->
  (List.length (matching i j right_rows l) <= 1)%nat
  /\ ((exists c, In c right_rows /\ same_value true (cell i l) (cell j c) = true) ->
      List.length (matching i j right_rows l) = 1%nat).
Proof.
  unfold matching. induction right_rows as [| r rs IH]; simpl; intros Hnd.
  - split; [lia | intros (c & [] & _)].
  - inversion Hnd as [| ? ? Hn Hnd']; subst.
    destruct (IH Hnd') as [Hle Heq].
    destruct (same_value true (cell i l) (cell j r)) eqn:E; simpl.
    + apply same_value_iff in E.
      assert (Hnone : filter (fun r0 => same_value true (cell i l) (cell j r0)) rs
                      = []).
      { destruct (filter (fun r0 => same_value true (cell i l) (cell j r0)) rs)
          as [| r' rest] eqn:F; [reflexivity |].
        assert (Hr' : In r' (filter (fun r0 => same_value true (cell i l) (cell j r0)) rs))
          by (rewrite F; left; reflexivity).
        apply filter_In in Hr'. destruct Hr' as [Hr' E'].
        apply same_value_iff in E'. exfalso. apply Hn.
        rewrite <- E, E'. apply in_map. apply in_map. exact Hr'. }
      rewrite Hnone. simpl. split; [lia | reflexivity].
    + split; [exact Hle |]. intros (c & [<- | Hc] & Hm); [congruence |].
      apply Heq. eauto.
Qed.

Lemma flat_map_length_le {A B : Type} (f : A -> list B) (l : list A) :
  (forall a, List.length (f a) <= 1)%nat ->
  (List.length (flat_map f l) <= List.length l)%nat.
Proof.
  intros H. induction l as [| a l IH]; simpl; [lia |].
  rewrite length_app. specialize (H a). lia.
Qed.

Lemma flat_map_length_eq {A B : Type} (f : A -> list B) (l : list A) :
  (forall a, In a l -> List.length (f a) = 1%nat) ->
  List.length (flat_map f l) = List.length l.
Proof.
  induction l as [| a l IH]; simpl; intros H; [reflexivity |].
  rewrite length_app, IH, (H a) by auto. reflexivity.
Qed.

(** X11: When no two rows of the catalog have the same product identifier
    (the same for the join: [1] and [1.0] are one identifier), the join
    multiplies nothing: a transaction gives at most one row, the result
    has at most as many rows as there are transactions, and exactly as
    many when every transaction names a product of the catalog. *)
Theorem merge_data_unique_catalog
        (refuses : list value -> list value -> bool)
        (txn cat out : DataFrame) (i j : nat) :
  index_of "product_id" (columns txn) = Some i ->
  index_of "product_id" (columns cat) = Some j ->
  NoDup (map (compared_by true) (column j cat)) ->
  merge_data refuses txn cat = Ok out ->
  (forall t, List.length (joined_with i j (rows cat) t) <= 1)%nat
  /\ (List.length (rows out) <= List.length (rows txn))%nat
  /\ ((forall t, In t (rows txn) ->
                 exists c, In c (rows cat)
                           /\ same_value true (cell i t) (cell j c) = true) ->
      List.length (rows out) = List.length (rows txn)).
Proof.
  intros Hi Hj Hnd H.
  destruct (merge_data_Ok refuses txn cat out i j Hi Hj H) as (_ & Hrows & _).
  unfold column in *.
  assert (Hone : forall t, (List.length (joined_with i j (rows cat) t) <= 1)%nat).
  { intros t. unfold joined_with. rewrite length_map.
    apply (matching_unique i j (rows cat) t Hnd). }
  split; [exact Hone |]. rewrite Hrows. split.
  - apply flat_map_length_le. exact Hone.
  - intros Hall. apply flat_map_length_eq. intros t Ht.
    unfold joined_with. rewrite length_map.
    apply (matching_unique i j (rows cat) t Hnd). apply Hall. exact Ht.
Qed.

Lemma merge_data_unique_catalog_witness :
  (forall t, List.length (joined_with 1 0 (rows catalog_example) t) <= 1)%nat
  /\ (List.length (rows merged_example)
      <= List.length (rows transactions_example))%nat
  /\ ((forall t, In t (rows transactions_example) ->
                 exists c, In c (rows catalog_example)
                           /\ same_value true (cell 1 t) (cell 0 c) = true) ->
      List.length (rows merged_example)
      = List.length (rows transactions_example)).
Proof.
  apply (merge_data_unique_catalog (fun _ _ => false)
           transactions_example catalog_example merged_example 1 0).
  - reflexivity.
  - reflexivity.
  - repeat constructor; simpl; intuition discriminate.
  - reflexivity.
Defined.

(** X12: Cleaning, then joining: in the unified table built from two
    cleaned frames that both have a price, every row has a valid price
    in its column [price_x] and a valid price in a column called
    [price_y], which is the column found under that name unless the
    transactions already had a column of that name. *)
Theorem unified_prices_are_valid
        (parse : list value -> value -> option datetime)
        (refuses : list value -> list value -> bool)
        (raw_txn raw_cat txn cat out : DataFrame) :
  well_formed raw_txn -> well_formed raw_cat ->
  In "price" (columns raw_txn) -> In "price" (columns raw_cat) ->
  clean_data parse raw_txn = Ok txn ->
  clean_data parse raw_cat = Ok cat ->
  merge_data refuses txn cat = Ok out ->
  forall o, In o (rows out) ->
    (exists px,
        lookup out "price_x" o = Some px /\ is_valid_value px = Ok true)
    /\ (exists k,
           nth_error (columns out) k = Some "price_y"
           /\ is_valid_value (cell k o) = Ok true
           /\ (~ In "price_y" (columns raw_txn) ->
               lookup out "price_y" o = Some (cell k o))).
Proof.
  intros Wrt Wrc Pt Pc Ht Hc Hm o Ho.
  pose proof (clean_data_well_formed parse _ _ Wrt Ht) as Wt.
  pose proof (clean_data_well_formed parse _ _ Wrc Hc) as Wc.
  destruct (merge_data_has_key refuses txn cat out Hm) as [Hkt Hkc].
  assert (Hct : columns txn = columns raw_txn).
  { destruct (clean_data_columns parse _ _ Ht) as [E | (-> & _)];
      [exact E | contradiction]. }
  assert (Hcc : columns cat = columns raw_cat).
  { destruct (clean_data_columns parse _ _ Hc) as [E | (-> & _)];
      [exact E | contradiction]. }
  rewrite <- Hct in Pt. rewrite <- Hcc in Pc.
  apply index_of_In in Hkt, Hkc. destruct Hkt as (i & Hi), Hkc as (j & Hj).
  apply index_of_In in Pt, Pc. destruct Pt as (p & Hp), Pc as (q & Hq).
  destruct (merge_data_Ok refuses txn cat out i j Hi Hj Hm) as (_ & Hrows & _).
  rewrite Hrows in Ho. apply in_flat_map in Ho.
  destruct Ho as (t & Hrt & Ho). apply joined_with_In in Ho.
  destruct Ho as (c & Hrc & _ & ->).
  destruct (merge_price_cells refuses txn cat out i j p q Wt Wc Hi Hj Hm Hp Hq)
    as (_ & _ & Hny & Hx & Hy & Hcells).
  destruct (Hcells t c Hrt Hrc) as [Ex Ey].
  pose proof (proj2 (clean_data_rows parse _ _ Ht)) as Vt.
  pose proof (proj2 (clean_data_rows parse _ _ Hc)) as Vc.
  rewrite Forall_forall in Vt, Vc.
  specialize (Vt t Hrt). specialize (Vc c Hrc). unfold passes in Vt, Vc.
  rewrite <- Hct, Hp in Vt. rewrite <- Hcc, Hq in Vc.
  split.
  - exists (cell p t). rewrite (lookup_at out _ _ _ Hx), Ex.
    split; [reflexivity | exact Vt].
  - eexists. split; [exact Hny |]. rewrite Ey. split; [exact Vc |].
    intros Hn. rewrite <- Hct in Hn.
    rewrite (lookup_at out _ _ _ (Hy Hn)), Ey. reflexivity.
Qed.

Lemma unified_prices_are_valid_witness :
  (exists px,
      lookup merged_example "price_x"
             [VInt 7; VInt 1; VInt 3; VInt 10; VStr "A"; VStr "toys"; VInt 12]
      = Some px
      /\ is_valid_value px = Ok true)
  /\ (exists k,
         nth_error (columns merged_example) k = Some "price_y"
         /\ is_valid_value
              (cell k [VInt 7; VInt 1; VInt 3; VInt 10;
                       VStr "A"; VStr "toys"; VInt 12]) = Ok true
         /\ (~ In "price_y" (columns transactions_example) ->
             lookup merged_example "price_y"
                    [VInt 7; VInt 1; VInt 3; VInt 10; VStr "A"; VStr "toys"; VInt 12]
             = Some (cell k [VInt 7; VInt 1; VInt 3; VInt 10;
                             VStr "A"; VStr "toys"; VInt 12]))).
Proof.
  apply (unified_prices_are_valid Iso8601.parse_datetime (fun _ _ => false)
           transactions_example catalog_example
           transactions_example catalog_example merged_example).
  - repeat constructor.
  - repeat constructor.
  - simpl. auto.
  - simpl. auto.
  - reflexivity.
  - reflexivity.
  - reflexivity.
  - left. reflexivity.
Defined.

(** ** More on the best-sellers query *)

Lemma total_sold_Permutation (k : group_key) (rows rows' : list unified_transaction) :
  Permutation rows rows' -> total_sold k rows = total_sold k rows'.
Proof.
  induction 1 as [| r l l' _ IH | r r' l | l l' l'' _ IH _ IH'].
  - reflexivity.
  - rewrite !total_sold_cons, IH. reflexivity.
  - rewrite !total_sold_cons.
    destruct (key_eqb (key_of r) k), (key_eqb (key_of r') k); lia.
  - congruence.
Qed.

Lemma group_by_sum_Permutation (rows rows' : list unified_transaction) :
  Permutation rows rows' ->
  Permutation (group_by_sum rows) (group_by_sum rows').
Proof.
  intros Hp.
  destruct (group_by_sum_spec rows) as [Hnd Hin].
  destruct (group_by_sum_spec rows') as [Hnd' Hin'].
  apply NoDup_Permutation.
  - eapply NoDup_map_inv. exact Hnd.
  - eapply NoDup_map_inv. exact Hnd'.
  - intros [k s]. rewrite Hin, Hin'.
    rewrite (total_sold_Permutation k _ _ Hp). split.
    + intros [(r & Hr & Hk) ->]. split; [| reflexivity].
      exists r. split; [eapply Permutation_in; eassumption | exact Hk].
    + intros [(r & Hr & Hk) ->]. split; [| reflexivity].
      exists r. split; [| exact Hk].
      eapply Permutation_in; [apply Permutation_sym; eassumption | exact Hr].
Qed.

Lemma descending_sorted_unique (l l' : list Z) :
  StronglySorted (fun a b => b <= a) l ->
  StronglySorted (fun a b => b <= a) l' ->
  Permutation l l' -> l = l'.
Proof.
  revert l'. induction l as [| a l IH]; intros l' Hs Hs' Hp.
  - apply Permutation_nil in Hp. subst. reflexivity.
  - destruct l' as [| b l'].
    { apply Permutation_sym, Permutation_nil in Hp. discriminate. }
    inversion Hs as [| ? ? Hsl Ha]; subst.
    inversion Hs' as [| ? ? Hsl' Hb]; subst.
    rewrite Forall_forall in Ha, Hb.
    assert (Hab : a = b).
    { assert (Hb_in : In b (a :: l)).
      { eapply Permutation_in; [apply Permutation_sym; exact Hp |].
        left. reflexivity. }
      assert (Ha_in : In a (b :: l')).
      { eapply Permutation_in; [exact Hp | left; reflexivity]. }
      destruct Hb_in as [E | Hb_in]; [exact E |].
      destruct Ha_in as [E | Ha_in]; [symmetry; exact E |].
      specialize (Ha b Hb_in). specialize (Hb a Ha_in). lia. }
    subst b. f_equal. apply IH; [exact Hsl | exact Hsl' |].
    eapply Permutation_cons_inv. exact Hp.
Qed.

Lemma descending_map_snd (l : list (group_key * Z)) :
  descending l -> StronglySorted (fun a b => b <= a) (map snd l).
Proof.
  unfold descending. induction 1 as [| a l _ IH Ha]; simpl; constructor.
  - exact IH.
  - rewrite Forall_forall in *. intros z Hz. apply in_map_iff in Hz.
    destruct Hz as (g & <- & Hg). apply Ha. exact Hg.
Qed.

Lemma descending_unique (l l' : list (group_key * Z)) :
  descending l -> descending l' -> Permutation l l' ->
  NoDup (map snd l) -> l = l'.
Proof.
  unfold descending. revert l'.
  induction l as [| a l IH]; intros l' Hs Hs' Hp Hnd.
  - apply Permutation_nil in Hp. subst. reflexivity.
  - destruct l' as [| b l'].
    { apply Permutation_sym, Permutation_nil in Hp. discriminate. }
    inversion Hs as [| ? ? Hsl Ha]; subst.
    inversion Hs' as [| ? ? Hsl' Hb]; subst.
    rewrite Forall_forall in Ha, Hb.
    simpl in Hnd. inversion Hnd as [| ? ? Hna Hnd']; subst.
    assert (Hab : a = b).
    { assert (Hb_in : In b (a :: l)).
      { eapply Permutation_in; [apply Permutation_sym; exact Hp |].
        left. reflexivity. }
      assert (Ha_in : In a (b :: l')).
      { eapply Permutation_in; [exact Hp | left; reflexivity]. }
      destruct Hb_in as [E | Hb_in]; [exact E |].
      destruct Ha_in as [E | Ha_in]; [symmetry; exact E |].
      specialize (Ha b Hb_in). specialize (Hb a Ha_in).
      exfalso. apply Hna. replace (snd a) with (snd b) by lia.
      apply in_map. exact Hb_in. }
    subst b. f_equal. apply IH; [exact Hsl | exact Hsl' | | exact Hnd'].
    eapply Permutation_cons_inv. exact Hp.
Qed.

(** X13: The report does not depend on the order of the rows in the unified
    table, nor on how the database orders equal totals: two tables with
    the same rows, in any order, give reports with the same totals in
    the same places, and the same report altogether when no two products
    have the same total. *)
Theorem top_2_selling_order_independent
        (tie tie' : group_key -> group_key -> bool)
        (rows rows' : list unified_transaction) :
  Permutation rows rows' ->
  map snd (top_2_selling tie rows) = map snd (top_2_selling tie' rows')
  /\ (NoDup (map snd (group_by_sum rows)) ->
      top_2_selling tie rows = top_2_selling tie' rows').
Proof.
  intros Hp.
  assert (Hs : Permutation (order_by_total_desc tie (group_by_sum rows))
                           (order_by_total_desc tie' (group_by_sum rows'))).
  { eapply perm_trans;
      [apply Permutation_sym; apply order_by_total_desc_Permutation |].
    eapply perm_trans; [| apply order_by_total_desc_Permutation].
    apply group_by_sum_Permutation. exact Hp. }
  unfold top_2_selling. split.
  - rewrite <- !firstn_map. f_equal.
    apply descending_sorted_unique.
    + apply descending_map_snd. apply order_by_total_desc_descending.
    + apply descending_map_snd. apply order_by_total_desc_descending.
    + apply Permutation_map. exact Hs.
  - intros Hnd. f_equal. apply descending_unique.
    + apply order_by_total_desc_descending.
    + apply order_by_total_desc_descending.
    + exact Hs.
    + eapply Permutation_NoDup; [| exact Hnd].
      apply Permutation_map. apply order_by_total_desc_Permutation.
Qed.

Lemma top_2_selling_order_independent_witness :
  map snd (top_2_selling (fun _ _ => true) sales_example)
  = map snd (top_2_selling (fun _ _ => false) (rev sales_example))
  /\ (NoDup (map snd (group_by_sum sales_example)) ->
      top_2_selling (fun _ _ => true) sales_example
      = top_2_selling (fun _ _ => false) (rev sales_example)).
Proof.
  apply (top_2_selling_order_independent (fun _ _ => true) (fun _ _ => false)
           sales_example (rev sales_example)).
  apply Permutation_rev.
Defined.

Lemma fold_add_sale_keys (rows : list unified_transaction)
      (acc : list (group_key * Z)) :
  (forall r, In r rows -> In (key_of r) (map fst acc)) ->
  map fst (fold_left (fun groups r => add_sale (key_of r) (quantity r) groups)
                     rows acc)
  = map fst acc.
Proof.
  revert acc. induction rows as [| r rows IH]; intros acc H; simpl.
  - reflexivity.
  - assert (E : map fst (add_sale (key_of r) (quantity r) acc) = map fst acc).
    { rewrite add_sale_keys.
      destruct (group_total acc (key_of r)) eqn:G; [reflexivity |].
      apply group_total_None in G. exfalso. apply G. apply H. left. reflexivity. }
    rewrite IH; [exact E |].
    intros r' Hr'. rewrite E. apply H. right. exact Hr'.
Qed.

Lemma group_total_Some_In (groups : list (group_key * Z)) (k : group_key) (s : Z) :
  group_total groups k = Some s -> In k (map fst groups).
Proof.
  induction groups as [| [k0 s0] groups IH]; simpl; [discriminate |].
  destruct (key_eqb k k0) eqn:E.
  - apply key_eqb_eq in E. subst. auto.
  - auto.
Qed.

Lemma doubled_groups (l l2 : list (group_key * Z)) :
  NoDup (map fst l) -> map fst l2 = map fst l ->
  (forall k s, group_total l k = Some s -> group_total l2 k = Some (2 * s)) ->
  l2 = map (fun g => (fst g, 2 * snd g)) l.
Proof.
  revert l2. induction l as [| [k s] l IH]; intros [| [k2 s2] l2] Hnd Hk Ht;
    simpl in *; try discriminate; [reflexivity |].
  injection Hk as -> Hk. inversion Hnd as [| ? ? Hn Hnd']; subst.
  specialize (Ht k s) as Hhead. rewrite key_eqb_refl in Hhead.
  specialize (Hhead eq_refl). injection Hhead as ->.
  f_equal. apply IH; [exact Hnd' | exact Hk |].
  intros k' s' Hk'.
  assert (Hne : key_eqb k' k = false).
  { apply key_eqb_neq. intros ->. apply Hn.
    eapply group_total_Some_In. exact Hk'. }
  specialize (Ht k' s'). rewrite Hne in Ht. apply Ht. exact Hk'.
Qed.

Lemma descending_doubled (l : list (group_key * Z)) :
  descending l -> descending (map (fun g => (fst g, 2 * snd g)) l).
Proof.
  unfold descending. induction 1 as [| a l _ IH Ha]; cbn [map]; constructor.
  - exact IH.
  - rewrite Forall_forall in *. intros b Hb. apply in_map_iff in Hb.
    destruct Hb as (g & <- & Hg). cbn [snd]. specialize (Ha g Hg). lia.
Qed.

Lemma map_snd_doubled (l : list (group_key * Z)) :
  map snd (map (fun g => (fst g, 2 * snd g)) l)
  = map (fun s => 2 * s) (map snd l).
Proof.
  rewrite !map_map. reflexivity.
Qed.

(** Reading every row twice doubles the total of every group. *)
Lemma group_by_sum_doubled (rows : list unified_transaction) :
  group_by_sum (rows ++ rows)
  = map (fun g => (fst g, 2 * snd g)) (group_by_sum rows).
Proof.
  destruct (group_by_sum_spec rows) as [Hnd Hin].
  assert (Hkeys : forall r, In r rows -> In (key_of r) (map fst (group_by_sum rows))).
  { intros r Hr.
    change (key_of r) with (fst (key_of r, total_sold (key_of r) rows)).
    apply in_map. apply Hin. eauto. }
  unfold group_by_sum at 1. rewrite fold_left_app.
  fold (group_by_sum rows).
  destruct (fold_add_sale rows (group_by_sum rows) Hnd) as [_ Htot].
  apply doubled_groups.
  - exact Hnd.
  - apply fold_add_sale_keys. exact Hkeys.
  - intros k s Hk. rewrite Htot, Hk. f_equal.
    apply (group_total_In _ _ _ Hnd) in Hk. apply Hin in Hk.
    destruct Hk as [_ ->]. lia.
Qed.

(** X14: Every write appends, so a second run over the same files leaves
    each row of the unified table there twice. The report of such a
    table has the doubled totals in the same places, however the
    database orders equal totals, and it lists the same products when no
    two products have the same total. *)
Theorem top_2_selling_appended_twice
        (tie tie' : group_key -> group_key -> bool)
        (rows : list unified_transaction) :
  map snd (top_2_selling tie (rows ++ rows))
  = map (fun s => 2 * s) (map snd (top_2_selling tie' rows))
  /\ (NoDup (map snd (group_by_sum rows)) ->
      top_2_selling tie (rows ++ rows)
      = map (fun g => (fst g, 2 * snd g)) (top_2_selling tie' rows)).
Proof.
  set (double := fun g : group_key * Z => (fst g, 2 * snd g)).
  assert (Hs : Permutation
                 (order_by_total_desc tie (group_by_sum (rows ++ rows)))
                 (map double (order_by_total_desc tie' (group_by_sum rows)))).
  { rewrite group_by_sum_doubled. fold double.
    eapply perm_trans;
      [apply Permutation_sym; apply order_by_total_desc_Permutation |].
    apply Permutation_map. apply order_by_total_desc_Permutation. }
  assert (Hd : descending
                 (map double (order_by_total_desc tie' (group_by_sum rows)))).
  { apply descending_doubled. apply order_by_total_desc_descending. }
  unfold top_2_selling. split.
  - rewrite <- map_snd_doubled. fold double.
    rewrite <- !firstn_map. f_equal.
    apply descending_sorted_unique.
    + apply descending_map_snd. apply order_by_total_desc_descending.
    + apply descending_map_snd. exact Hd.
    + apply Permutation_map. exact Hs.
  - intros Hnd. fold double. rewrite <- firstn_map. f_equal.
    apply descending_unique.
    + apply order_by_total_desc_descending.
    + exact Hd.
    + exact Hs.
    + eapply Permutation_NoDup;
        [apply Permutation_map; apply Permutation_sym; exact Hs |].
      unfold double. rewrite map_snd_doubled.
      apply Finite.Injective_map_NoDup; [intros x y Hxy; lia |].
      eapply Permutation_NoDup; [| exact Hnd].
      apply Permutation_map. apply order_by_total_desc_Permutation.
Qed.

Lemma top_2_selling_appended_twice_witness :
  NoDup (map snd (group_by_sum sales_example))
  /\ top_2_selling (fun _ _ => true) (sales_example ++ sales_example)
     = map (fun g => (fst g, 2 * snd g))
           (top_2_selling (fun _ _ => false) sales_example).
Proof.
  assert (H : NoDup (map snd (group_by_sum sales_example))).
  { repeat constructor; simpl; intuition discriminate. }
  split; [exact H |].
  apply (proj2 (top_2_selling_appended_twice
                  (fun _ _ => true) (fun _ _ => false) sales_example)).
  exact H.
Defined.

(** ** More on the connection gate *)

Lemma repeat_snoc {A : Type} (a : A) (n : nat) :
  repeat a n ++ [a] = repeat a (S n).
Proof.
  induction n as [| n IH]; simpl; [reflexivity |].
  simpl in IH. rewrite IH. reflexivity.
Qed.

(** After [n] refused connections the gate has tried [n] times, slept
    [n] times and is still running. *)
Lemma run_prefix (server : nat -> result unit) (n : nat) :
  (forall k, (k < n)%nat -> server k = Raise OperationalError) ->
  eutt eq (run server start)
       (run server {| attempts := n; sleeps := repeat 5 n |}).
Proof.
  induction n as [| n IH]; intros Hfail.
  - reflexivity.
  - rewrite IH by (intros k Hk; apply Hfail; lia).
    rewrite run_after_failure by (simpl; apply Hfail; lia).
    simpl attempts. simpl sleeps. rewrite repeat_snoc. reflexivity.
Qed.

Lemma exn_eq_dec (a b : exn) : {a = b} + {a <> b}.
Proof.
  decide equality.
Qed.

Lemma refused_dec (r : result unit) :
  r = Raise OperationalError \/ r <> Raise OperationalError.
Proof.
  destruct r as [u | e]; [right; discriminate |].
  destruct (exn_eq_dec e OperationalError) as [-> | Hne]; [left; reflexivity |].
  right. congruence.
Qed.

(** X15: Whenever the gate returns, it returns what its last attempt met,
    which is a connection or an error other than a connectivity error;
    every attempt before was refused and was followed by one sleep of 5
    seconds. It never hands a connectivity error to its caller. *)
Theorem await_connection_returns (server : nat -> result unit)
        (w : world) (r : result unit) :
  eutt eq (run server start) (Ret (w, r)) ->
  exists n,
    attempts w = S n
    /\ sleeps w = repeat 5 n
    /\ (forall k, (k < n)%nat -> server k = Raise OperationalError)
    /\ server n = r
    /\ r <> Raise OperationalError.
Proof.
  intros Hret.
  destruct (classic (exists n, server n <> Raise OperationalError))
    as [Hex | Hall].
  - apply dec_inh_nat_subset_has_unique_least_element in Hex.
    + destruct Hex as (n & [Hn Hleast] & _).
      assert (Hfail : forall k, (k < n)%nat -> server k = Raise OperationalError).
      { intros k Hk. destruct (refused_dec (server k)) as [E | E]; [exact E |].
        apply Hleast in E. lia. }
      assert (Hrun : eutt eq (run server start)
                          (Ret ({| attempts := S n; sleeps := repeat 5 n |},
                                server n))).
      { rewrite (run_prefix server n Hfail).
        destruct (server n) as [[] | e] eqn:E.
        - apply run_after_success. exact E.
        - apply run_after_error; [exact E | congruence]. }
      rewrite Hrun in Hret. apply eutt_inv_Ret in Hret.
      injection Hret as <- <-. exists n. simpl. auto.
    + intros k. destruct (refused_dec (server k)); tauto.
  - exfalso.
    assert (Hfail : forall k, server k = Raise OperationalError).
    { intros k. destruct (refused_dec (server k)) as [E | E]; [exact E |].
      exfalso. apply Hall. eauto. }
    rewrite (run_never_returns server Hfail start) in Hret.
    exact (eutt_spin_Ret_abs _ Hret).
Qed.

Lemma await_connection_returns_witness :
  exists n,
    attempts {| attempts := 3; sleeps := [5; 5] |} = S n
    /\ sleeps {| attempts := 3; sleeps := [5; 5] |} = repeat 5 n
    /\ (forall k, (k < n)%nat -> fails_twice k = Raise OperationalError)
    /\ fails_twice n = Ok tt
    /\ Ok tt <> Raise OperationalError.
Proof.
  apply (await_connection_returns fails_twice
           {| attempts := 3; sleeps := [5; 5] |} (Ok tt)).
  rewrite (run_prefix fails_twice 2).
  - apply run_after_success. reflexivity.
  - intros [| [| k]] Hk; [reflexivity | reflexivity | lia].
Defined.

(** ** The body of the program *)

Import Pipeline.

(** Runs the block on an outside that is known only through the answers
    the block asks for, one answer at a time. *)
Ltac run_block :=
  unfold main_block, with_connection, body, report, to_sql_append, load_data,
    pbind, call, lift;
  cbn [String.eqb Ascii.eqb Bool.eqb app fst snd];
  repeat match goal with
         | |- context [match ?x with _ => _ end] =>
             lazymatch x with
             | connect _ => destruct x as [[] | ?] eqn:?
             | read_csv _ _ => destruct x as [? | ?] eqn:?
             | read_json _ _ => destruct x as [? | ?] eqn:?
             | to_sql _ _ _ _ => destruct x as [[] | ?] eqn:?
             | read_sql _ _ => destruct x as [? | ?] eqn:?
             | to_csv _ _ _ => destruct x as [[] | ?] eqn:?
             | clean_data _ _ => destruct x as [? | ?] eqn:?
             | merge_data _ _ _ => destruct x as [? | ?] eqn:?
             end;
             cbn [app fst snd]
         end.

Ltac in_log H :=
  cbn [In] in H;
  repeat match type of H with
         | _ \/ _ => destruct H as [H | H]
         end;
  try contradiction; try discriminate H.

(** X16: Whatever the outside answers, the layers are written in order and
    from one another: what goes to [raw] is what was read from the two
    files; what goes to [ingest] is the result of [clean_data] on what
    went to the [raw] table of the same name; what goes to [curate] is
    the join of the two frames that went to [ingest]; a query is sent
    only after the unified table was written, and a CSV file holds the
    answer of a query. *)
Theorem main_block_layers (parse : list value -> value -> option datetime)
        (refuses : list value -> list value -> bool) (w : outside) :
  let log := fst (main_block parse refuses w) in
  (forall df,
      In (ToSql "raw" "customer_transactions" df) log ->
      read_json w "./raw/customer_transactions.json" = Ok df)
  /\ (forall df,
         In (ToSql "raw" "product_catalog" df) log ->
         read_csv w "./raw/product_catalog.csv" = Ok df)
  /\ (forall name df',
         In (ToSql "ingest" name df') log ->
         exists df, In (ToSql "raw" name df) log /\ clean_data parse df = Ok df')
  /\ (forall name m,
         In (ToSql "curate" name m) log ->
         name = "unified_transactions"
         /\ exists c1 c2,
             In (ToSql "ingest" "customer_transactions" c1) log
             /\ In (ToSql "ingest" "product_catalog" c2) log
             /\ merge_data refuses c1 c2 = Ok m)
  /\ (forall q,
         In (ReadSql q) log ->
         exists m, In (ToSql "curate" "unified_transactions" m) log)
  /\ (forall p df,
         In (ToCsv p df) log ->
         exists q, In (ReadSql q) log /\ read_sql w q = Ok df).
Proof.
  run_block.
  all: repeat split; intros.
  all: match goal with H : In _ _ |- _ => in_log H end.
  all: try (match goal with H : _ = _ :> effect |- _ => injection H as; subst end).
  all: cbn [In]; eauto 20.
Qed.

(** X17: When the cleaning of either file raises, the run ends with an
    exception, and all it has written are the raw tables: nothing goes
    to [ingest] or [curate], not even the cleaned frame of the other
    file, no query is sent and no CSV file is written. *)
Theorem main_block_stops_at_cleaning
        (parse : list value -> value -> option datetime)
        (refuses : list value -> list value -> bool)
        (w : outside) (df : DataFrame) (e : exn) :
  (read_json w "./raw/customer_transactions.json" = Ok df
   \/ read_csv w "./raw/product_catalog.csv" = Ok df) ->
  clean_data parse df = Raise e ->
  let (log, r) := main_block parse refuses w in
  r <> Ok tt
  /\ (forall schema name d, In (ToSql schema name d) log -> schema = "raw")
  /\ (forall q, ~ In (ReadSql q) log)
  /\ (forall p d, ~ In (ToCsv p d) log).
Proof.
  intros Hread Hclean. run_block.
  all: destruct Hread as [Hread | Hread]; try congruence.
  all: split; [discriminate |].
  all: repeat split; repeat intro.
  all: match goal with H : In _ _ |- _ => in_log H end.
  all: try (match goal with H : _ = _ :> effect |- _ => injection H as; subst end).
  all: reflexivity.
Qed.

Lemma main_block_stops_at_cleaning_witness :
  let (log, r) :=
    main_block Iso8601.parse_datetime (fun _ _ => false) bad_file_outside in
  r <> Ok tt
  /\ (forall schema name d, In (ToSql schema name d) log -> schema = "raw")
  /\ (forall q, ~ In (ReadSql q) log)
  /\ (forall p d, ~ In (ToCsv p d) log).
Proof.
  apply (main_block_stops_at_cleaning Iso8601.parse_datetime (fun _ _ => false)
           bad_file_outside bad_timestamp ParseError).
  - left. reflexivity.
  - reflexivity.
Defined.

(** X18: The connection is closed on every path: once it was opened, the
    calls of a run start with [Connect], end with [Close], and hold
    neither of them in between; when it cannot be opened nothing else
    is called and its exception is the result. The block returns
    normally exactly when it reached its last line. *)
Theorem main_block_closes_connection
        (parse : list value -> value -> option datetime)
        (refuses : list value -> list value -> bool) (w : outside) :
  let (log, r) := main_block parse refuses w in
  (connect w = Ok tt ->
   exists calls,
     log = Connect :: calls ++ [Close]
     /\ ~ In Connect calls /\ ~ In Close calls)
  /\ (forall e, connect w = Raise e -> log = [Connect] /\ r = Raise e)
  /\ (r = Ok tt <-> In PrintDone log).
Proof.
  run_block.
  all: split; [intros Hc | split; [intros ? ?; try discriminate |]].
  all: try (exfalso; congruence).
  all: try (eexists; split;
            [ match goal with
              | |- Connect :: ?l = _ =>
                  let l' := eval cbn in (removelast l) in
                  instantiate (1 := l'); reflexivity
              end
            | cbn [In]; split; intros K; in_log K ]).
  all: try (split; congruence).
  all: try (split; [discriminate | intros K; in_log K]).
  all: try (split; [intros _; cbn [In]; tauto | reflexivity]).
Qed.

(** X19: The two files are read through [load_data] by their declared
    type: the transactions with the JSON reader and the catalog with the
    CSV reader, each at its fixed path and nowhere else. The catalog is
    read only once the transactions have been read, and nothing is
    written before both files have been read. *)
Theorem main_block_loads
        (parse : list value -> value -> option datetime)
        (refuses : list value -> list value -> bool) (w : outside) :
  let log := fst (main_block parse refuses w) in
  (forall p, In (ReadJson p) log -> p = "./raw/customer_transactions.json")
  /\ (forall p, In (ReadCsv p) log -> p = "./raw/product_catalog.csv")
  /\ (connect w = Ok tt ->
      In (ReadJson "./raw/customer_transactions.json") log)
  /\ (forall p,
         In (ReadCsv p) log ->
         exists df, read_json w "./raw/customer_transactions.json" = Ok df)
  /\ (forall schema name d,
         In (ToSql schema name d) log ->
         exists df, read_csv w "./raw/product_catalog.csv" = Ok df).
Proof.
  run_block.
  all: repeat split; intros.
  all: try match goal with H : In _ _ |- _ => in_log H end.
  all: try (match goal with H : _ = _ :> effect |- _ => injection H as; subst end).
  all: try reflexivity; try congruence; cbn [In]; eauto 20.
Qed.

(** X20: [LIMIT 2] cuts, it does not pad: the report is empty for an
    empty table, has a row as soon as the table has one, and has exactly
    two rows as soon as two rows of the table differ in identifier or in
    name, however the database orders equal totals. *)
Theorem top_2_selling_length (tie : Sql.group_key -> Sql.group_key -> bool)
        (rows : list Sql.unified_transaction) :
  (rows = [] <-> Sql.top_2_selling tie rows = [])
  /\ (forall r1 r2,
         In r1 rows -> In r2 rows -> Sql.key_of r1 <> Sql.key_of r2 ->
         List.length (Sql.top_2_selling tie rows) = 2%nat).
Proof.
  destruct (group_by_sum_spec rows) as [_ Hin].
  pose proof (order_by_total_desc_Permutation tie (Sql.group_by_sum rows)) as Hperm.
  unfold Sql.top_2_selling.
  set (sorted := Sql.order_by_total_desc tie (Sql.group_by_sum rows)) in *.
  assert (Hgroup : forall r, In r rows ->
             In (Sql.key_of r, Sql.total_sold (Sql.key_of r) rows) sorted).
  { intros r Hr. apply (Permutation_in _ Hperm). apply Hin. eauto. }
  split; [split |].
  - intros ->. reflexivity.
  - intros Hnil. destruct rows as [| r rows]; [reflexivity |].
    specialize (Hgroup r (or_introl eq_refl)).
    destruct sorted as [| g sorted']; [contradiction | discriminate].
  - intros r1 r2 H1 H2 Hne.
    apply Hgroup in H1. apply Hgroup in H2.
    apply firstn_length_le.
    destruct sorted as [| a [| b sorted']]; simpl in *; try lia;
      try contradiction.
    destruct H1 as [E1 | []]. destruct H2 as [E2 | []].
    rewrite E1 in E2. apply (f_equal fst) in E2. destruct (Hne E2).
Qed.

